(** * Logic analyzer: capture state machine and decoder stacking

    A shallow embedding of [src/logicanalyzer/logic_analyzer.cpp]:

    - the buffer sizing done by [LogicAnalyzer::startStop] (rounding to a
      multiple of four, the chunk size of a streaming capture);
    - the capture thread spawned by [startStop], in its oneshot and its
      streaming branch, as a function of what the hardware read returns
      and of what the thread sees in [m_stopRequested];
    - [saveTriggerState] and [restoreTriggerState];
    - the arming of the auto-trigger timer;
    - [sort_pds] and [updateStackDecoderButton].

    C++ integers are [Z] with their conversions written out, [double] is
    the kernel's binary64 [float], vectors are lists. *)

From Stdlib Require Import ZArith Lia Bool String Ascii.
From Stdlib Require Import Sorting.Sorted Sorting.Permutation.
From Stdlib Require Import Floats.
From Equations Require Import Equations.
From stdpp Require Import base list.

Local Open Scope Z_scope.

(** ** C++ integer conversions *)

(** Conversion to [uint64_t]. *)
Definition to_uint64 (z : Z) : Z := z mod 2 ^ 64.

(** Conversion to [int] (32 bits, two's complement). *)
Definition to_int (z : Z) : Z := (z + 2 ^ 31) mod 2 ^ 32 - 2 ^ 31.

(** Conversion of a [uint64_t] below [2^63] to [double]. *)
Definition to_double (z : Z) : float := PrimFloat.of_uint63 (Uint63.of_Z z).

(** Conversion of a [double] to [int]: the fractional part is dropped,
    and the result is the integer left when an [int] can hold it; the
    conversion is undefined otherwise (a value out of range, an infinity,
    a NaN), which is [None] here. A finite [double] is
    [(-1)^s * m * 2^e]. *)
Definition double_to_int (d : float) : option Z :=
  match Prim2SF d with
  | S754_zero _ => Some 0
  | S754_finite s m e =>
    let magnitude := Z.shiftl (Z.pos m) e in
    let i := if s then - magnitude else magnitude in
    if (- 2 ^ 31 <=? i) && (i <=? 2 ^ 31 - 1) then Some i else None
  | _ => None
  end.

(** ** Buffer sizes *)

Definition MAX_BUFFER_SIZE_ONESHOT : Z := 4 * 1024 * 1024.
Definition MAX_BUFFER_SIZE_STREAM : Z := 1 * 1024 * 1024 * 1024.

(** The maximum [on_btnStreamOneShot_toggled] gives to the buffer size
    control; [toggled] is true in oneshot mode. *)
Definition maxBufferSize (toggled : bool) : Z :=
  if toggled then MAX_BUFFER_SIZE_ONESHOT else MAX_BUFFER_SIZE_STREAM.

(** [static_cast<int>(((bufferSize + 3) / 4) * 4)], with [bufferSize] a
    [uint64_t]. *)
Definition bufferSizeAdjusted (bufferSize : Z) : Z :=
  to_int (to_uint64 (to_uint64 (bufferSize + 3) / 4 * 4)).

(** [while ((bufferSizeAdjusted >> chunks) > (1 << 19)) chunks++;] The
    counter is a [uint64_t] that starts at 4; it stops at 12 at the latest
    for an [int] (lemma [chunks_loop_le_12]), so its increment never wraps. *)
Equations? chunks_loop (adj chunks : Z) : Z
  by wf (Z.to_nat (Z.log2 (Z.shiftr adj chunks))) lt :=
  chunks_loop adj chunks with Z_gt_le_dec (Z.shiftr adj chunks) (Z.shiftl 1 19) => {
    | left _ := chunks_loop adj (chunks + 1);
    | right _ := chunks }.
Proof.
  rewrite <- Z.shiftr_shiftr by lia.
  change (Z.shiftl 1 19) with 524288 in *.
  rewrite Z.log2_shiftr by lia.
  assert (Z.log2 524288 <= Z.log2 (Z.shiftr adj chunks))
    by (apply Z.log2_le_mono; lia).
  change (Z.log2 524288) with 19 in *. lia.
Qed.

(** [(bufferSizeAdjusted >> chunks) > 0 ? (bufferSizeAdjusted >> chunks) : 4],
    stored in a [uint64_t]. *)
Definition chunk_size (adj : Z) : Z :=
  let chunks := chunks_loop adj 4 in
  if Z.shiftr adj chunks >? 0 then to_uint64 (Z.shiftr adj chunks) else 4.

(** [bufferSizeAdjusted / chunk_size], the [int] converted to [uint64_t]. *)
Definition buffersCount (adj : Z) : Z := to_uint64 adj / chunk_size adj.

(** ** The trigger of the digital front-end *)

(** [libm2k::M2K_TRIGGER_CONDITION_DIGITAL], in the order of its values
    0 to 5. *)
Inductive M2K_TRIGGER_CONDITION_DIGITAL : Set :=
| RISING_EDGE_DIGITAL
| FALLING_EDGE_DIGITAL
| LOW_LEVEL_DIGITAL
| HIGH_LEVEL_DIGITAL
| ANY_EDGE_DIGITAL
| NO_TRIGGER_DIGITAL.

(** What [m_m2kDigital->getTrigger()] holds: one condition per channel,
    the external condition and the streaming flag; [sampleRateIn] is the
    rate the hardware applies when asked for a rate. *)
Record M2kHardwareTrigger : Type := mkTrigger {
  digitalCondition : list M2K_TRIGGER_CONDITION_DIGITAL;
  digitalExternalCondition : M2K_TRIGGER_CONDITION_DIGITAL;
  digitalStreamingFlag : bool;
  sampleRateIn : float -> float }.

(** [getDigitalCondition(i)]. The library rejects a channel that does not
    exist; the loops below only ask for channels under [m_nbChannels]. *)
Definition getDigitalCondition (t : M2kHardwareTrigger) (i : nat)
  : M2K_TRIGGER_CONDITION_DIGITAL :=
  default NO_TRIGGER_DIGITAL (digitalCondition t !! i).

Definition setDigitalCondition (i : nat) (c : M2K_TRIGGER_CONDITION_DIGITAL)
    (t : M2kHardwareTrigger) : M2kHardwareTrigger :=
  mkTrigger (<[i := c]> (digitalCondition t)) (digitalExternalCondition t)
            (digitalStreamingFlag t) (sampleRateIn t).

Definition setDigitalExternalCondition (c : M2K_TRIGGER_CONDITION_DIGITAL)
    (t : M2kHardwareTrigger) : M2kHardwareTrigger :=
  mkTrigger (digitalCondition t) c (digitalStreamingFlag t) (sampleRateIn t).

Definition setDigitalStreamingFlag (b : bool) (t : M2kHardwareTrigger)
  : M2kHardwareTrigger :=
  mkTrigger (digitalCondition t) (digitalExternalCondition t) b (sampleRateIn t).

(** ** What the capture thread leaves behind *)

(** [CapturePlot]'s trigger state. *)
Inductive TriggerState : Set := Stop | Waiting | Triggered | Auto.

(** A method invocation posted to the main thread. *)
Inductive Invocation : Set :=
| SetTriggerState (s : TriggerState)
| Replot
| ToggleRunSingle (checked : bool).

(** The effects of one capture thread, each list in the order of the
    events: the number of words of [m_buffer], the [memcpy] calls into it
    (first word written, number of words), the [dataAvailable(from, to)]
    emissions, the queued invocations, what [qDebug] printed of caught
    exceptions, and [m_lastCapturedSample]. *)
Record Capture : Type := mkCapture {
  m_buffer : option Z;
  copied : list (Z * Z);
  emitted : list (Z * Z);
  queued : list Invocation;
  debug : list string;
  m_lastCapturedSample : Z }.

Definition Capture_start : Capture := mkCapture None [] [] [] [] 0.

Definition allocate (n : Z) (c : Capture) : Capture :=
  mkCapture (Some n) (copied c) (emitted c) (queued c) (debug c)
            (m_lastCapturedSample c).

Definition memcpy (first count : Z) (c : Capture) : Capture :=
  mkCapture (m_buffer c) (copied c ++ [(first, count)]) (emitted c) (queued c)
            (debug c) (m_lastCapturedSample c).

Definition dataAvailable (from to : Z) (c : Capture) : Capture :=
  mkCapture (m_buffer c) (copied c) (emitted c ++ [(from, to)]) (queued c)
            (debug c) (m_lastCapturedSample c).

Definition invokeMethod (i : Invocation) (c : Capture) : Capture :=
  mkCapture (m_buffer c) (copied c) (emitted c) (queued c ++ [i]) (debug c)
            (m_lastCapturedSample c).

Definition qDebug (what : string) (c : Capture) : Capture :=
  mkCapture (m_buffer c) (copied c) (emitted c) (queued c) (debug c ++ [what])
            (m_lastCapturedSample c).

Definition set_lastCapturedSample (n : Z) (c : Capture) : Capture :=
  mkCapture (m_buffer c) (copied c) (emitted c) (queued c) (debug c) n.

(** The result of [getSamplesP]: the samples, or [std::invalid_argument]
    with its message. *)
Inductive ReadResult : Set :=
| Samples
| InvalidArgument (what : string).

(** What a capture thread meets: the result of its [k]-th call of
    [getSamplesP] (from 0) for a number of samples, and the value it reads
    in [m_stopRequested] after that call. *)
Record Environment : Type := mkEnvironment {
  getSamplesP : nat -> Z -> ReadResult;
  stopRequested : nat -> bool }.

(** Where the streaming loop stands: ended because its condition
    [totalSamples] became 0, ended by the [break] on [m_stopRequested], or
    still running after the iterations looked at. *)
Inductive LoopExit : Set := Completed | Canceled | Running.

(** The [do ... while (totalSamples)] loop of the streaming branch, for
    [fuel] iterations at most; [k] counts the iterations done before. *)
Fixpoint streamLoop (env : Environment) (fuel k : nat)
    (chunk totalSamples absIndex : Z) (c : Capture) : LoopExit * Capture :=
  match fuel with
  | O => (Running, c)
  | S fuel' =>
    let captureSize := Z.min chunk totalSamples in
    let '(absIndex', totalSamples', c1) :=
      match getSamplesP env k captureSize with
      | Samples =>
        (to_uint64 (absIndex + captureSize),
         to_uint64 (totalSamples - captureSize),
         invokeMethod (SetTriggerState Triggered)
                      (memcpy absIndex captureSize c))
      | InvalidArgument what => (absIndex, totalSamples, qDebug what c)
      end in
    if stopRequested env k then (Canceled, c1)
    else
      let c2 := set_lastCapturedSample absIndex'
                  (invokeMethod Replot
                     (dataAvailable (to_uint64 (absIndex' - captureSize))
                                    absIndex' c1)) in
      if totalSamples' =? 0 then (Completed, c2)
      else streamLoop env fuel' (S k) chunk totalSamples' absIndex' c2
  end.

(** The lambda run by [m_captureThread], up to the end of its capture
    branch. [oneShot] is [ui->btnStreamOneShot->isChecked()] as the thread
    reads it; [bufferSize] and [adj] are the values of [bufferSize] and
    [bufferSizeAdjusted] the lambda captured. *)
Definition captureBranch (env : Environment) (fuel : nat) (oneShot : bool)
    (bufferSize adj : Z) (c : Capture) : LoopExit * Capture :=
  let c1 := invokeMethod (SetTriggerState Waiting) (allocate bufferSize c) in
  if oneShot then
    let c2 :=
      match getSamplesP env 0 bufferSize with
      | Samples => invokeMethod (SetTriggerState Triggered) (memcpy 0 adj c1)
      | InvalidArgument what => qDebug what c1
      end in
    (Completed, dataAvailable 0 bufferSize c2)
  else
    streamLoop env fuel 0 (chunk_size adj) (to_uint64 adj) 0 c1.

(** The whole lambda: the capture branch, then, once that is over, the
    invocations queued after it. ([m_started = false] and the direct call
    of [restoreTriggerState] are in [captureThread_finish] below.) *)
Definition captureThread (env : Environment) (fuel : nat) (oneShot : bool)
    (bufferSize adj : Z) (c : Capture) : LoopExit * Capture :=
  let r := captureBranch env fuel oneShot bufferSize adj c in
  match r.1 with
  | Running => r
  | exit =>
    (exit,
     invokeMethod (SetTriggerState Stop)
       (invokeMethod Replot (invokeMethod (ToggleRunSingle false) r.2)))
  end.

(** Every word the [memcpy] calls wrote lies inside the allocated
    buffer. *)
Definition copy_in_bounds (n : Z) (w : Z * Z) : bool :=
  (0 <=? fst w) && (fst w + snd w <=? n).

Definition writes_in_bounds (c : Capture) : bool :=
  match m_buffer c with
  | None => match copied c with [] => true | _ => false end
  | Some n => forallb (copy_in_bounds n) (copied c)
  end.

(** ** The controller *)

(** The members of [LogicAnalyzer] and the controls of its panel that the
    capture depends on. [bufferSizeButton] is the value of the control as
    [startStop] converts it to [uint64_t]; [btnStreamOneShot] is checked
    in oneshot mode; [m_timer] is [Some msec] once the single-shot timer
    has been started, [msec] being the interval [QTimer::start(int msec)]
    got, and [None] again once it has fired; [m_captureThread] holds what
    the lambda
    captured ([bufferSize], [bufferSizeAdjusted]); [capture] holds
    [m_lastCapturedSample], which [startStop] sets to 0 for the thread.

    [m_bufferSize] and [m_timerTimeout] are declared in logic_analyzer.h;
    they have the types their uses here ask for: the first is shifted and
    divided as an integer, the second is assigned and read as a
    [double]. *)
Record LogicAnalyzer : Type := mkLogicAnalyzer {
  sampleRateButton : float;
  bufferSizeButton : Z;
  btnStreamOneShot : bool;
  m_sampleRate : float;
  m_bufferSize : Z;
  m_timerTimeout : float;
  m_started : bool;
  m_stopRequested : bool;
  m_autoMode : bool;
  m_timer : option (option Z);
  m_triggerState : list M2K_TRIGGER_CONDITION_DIGITAL;
  m_captureThread : option (Z * Z);
  trigger : M2kHardwareTrigger;
  plotTriggerState : TriggerState;
  capture : Capture }.

(** [m_nbChannels(m_m2kDigital->getNbChannelsIn())]: the number of
    channels of the front-end. *)
Definition m_nbChannels (la : LogicAnalyzer) : nat :=
  length (digitalCondition (trigger la)).

Definition set_run (started stop : bool) (la : LogicAnalyzer) : LogicAnalyzer :=
  mkLogicAnalyzer (sampleRateButton la) (bufferSizeButton la)
    (btnStreamOneShot la) (m_sampleRate la) (m_bufferSize la)
    (m_timerTimeout la) started stop (m_autoMode la) (m_timer la)
    (m_triggerState la) (m_captureThread la) (trigger la)
    (plotTriggerState la) (capture la).

Definition set_trigger (saved : list M2K_TRIGGER_CONDITION_DIGITAL)
    (t : M2kHardwareTrigger) (la : LogicAnalyzer) : LogicAnalyzer :=
  mkLogicAnalyzer (sampleRateButton la) (bufferSizeButton la)
    (btnStreamOneShot la) (m_sampleRate la) (m_bufferSize la)
    (m_timerTimeout la) (m_started la) (m_stopRequested la) (m_autoMode la)
    (m_timer la) saved (m_captureThread la) t (plotTriggerState la)
    (capture la).

Definition set_plot (s : TriggerState) (timer : option (option Z))
    (la : LogicAnalyzer) : LogicAnalyzer :=
  mkLogicAnalyzer (sampleRateButton la) (bufferSizeButton la)
    (btnStreamOneShot la) (m_sampleRate la) (m_bufferSize la)
    (m_timerTimeout la) (m_started la) (m_stopRequested la) (m_autoMode la)
    timer (m_triggerState la) (m_captureThread la) (trigger la) s
    (capture la).

Definition set_thread (th : option (Z * Z)) (c : Capture)
    (la : LogicAnalyzer) : LogicAnalyzer :=
  mkLogicAnalyzer (sampleRateButton la) (bufferSizeButton la)
    (btnStreamOneShot la) (m_sampleRate la) (m_bufferSize la)
    (m_timerTimeout la) (m_started la) (m_stopRequested la) (m_autoMode la)
    (m_timer la) (m_triggerState la) th (trigger la) (plotTriggerState la) c.

(** [m_timerTimeout = 1.0 / m_sampleRate * m_bufferSize * 1000.0 + 100]. *)
Definition timerTimeout (sampleRate : float) (bufferSize : Z) : float :=
  (1.0 / sampleRate * to_double bufferSize * 1000.0 + 100)%float.

(** The slot of the sample rate control, as far as the members go. *)
Definition onSampleRateValueChanged (value : float) (la : LogicAnalyzer)
  : LogicAnalyzer :=
  mkLogicAnalyzer (sampleRateButton la) (bufferSizeButton la)
    (btnStreamOneShot la) value (m_bufferSize la)
    (timerTimeout value (m_bufferSize la)) (m_started la)
    (m_stopRequested la) (m_autoMode la) (m_timer la) (m_triggerState la)
    (m_captureThread la) (trigger la) (plotTriggerState la) (capture la).

(** The slot of the buffer size control, as far as the members go. *)
Definition onBufferSizeChanged (value : Z) (la : LogicAnalyzer)
  : LogicAnalyzer :=
  mkLogicAnalyzer (sampleRateButton la) (bufferSizeButton la)
    (btnStreamOneShot la) (m_sampleRate la) value
    (timerTimeout (m_sampleRate la) value) (m_started la)
    (m_stopRequested la) (m_autoMode la) (m_timer la) (m_triggerState la)
    (m_captureThread la) (trigger la) (plotTriggerState la) (capture la).

(** [m_sampleRateButton->setValue(v)] and [m_bufferSizeButton->setValue(v)]:
    the control takes the value and its [valueChanged] signal runs the
    slot connected to it in [connectSignalsAndSlots]. *)
Definition sampleRateButton_setValue (v : float) (la : LogicAnalyzer)
  : LogicAnalyzer :=
  onSampleRateValueChanged v
    (mkLogicAnalyzer v (bufferSizeButton la) (btnStreamOneShot la)
       (m_sampleRate la) (m_bufferSize la) (m_timerTimeout la) (m_started la)
       (m_stopRequested la) (m_autoMode la) (m_timer la) (m_triggerState la)
       (m_captureThread la) (trigger la) (plotTriggerState la) (capture la)).

Definition bufferSizeButton_setValue (v : Z) (la : LogicAnalyzer)
  : LogicAnalyzer :=
  onBufferSizeChanged v
    (mkLogicAnalyzer (sampleRateButton la) v (btnStreamOneShot la)
       (m_sampleRate la) (m_bufferSize la) (m_timerTimeout la) (m_started la)
       (m_stopRequested la) (m_autoMode la) (m_timer la) (m_triggerState la)
       (m_captureThread la) (trigger la) (plotTriggerState la) (capture la)).

(** One turn of the loop of [saveTriggerState], on the saved vector and
    the trigger. *)
Definition saveChannel
    (st : list M2K_TRIGGER_CONDITION_DIGITAL * M2kHardwareTrigger) (i : nat)
  : list M2K_TRIGGER_CONDITION_DIGITAL * M2kHardwareTrigger :=
  (st.1 ++ [getDigitalCondition st.2 i],
   setDigitalCondition i NO_TRIGGER_DIGITAL st.2).

Definition saveTriggerState (la : LogicAnalyzer) : LogicAnalyzer :=
  if m_started la then
    let st := foldl saveChannel (m_triggerState la, trigger la)
                    (seq 0 (m_nbChannels la)) in
    let externalTriggerCondition := digitalExternalCondition st.2 in
    set_trigger (st.1 ++ [externalTriggerCondition])
                (setDigitalExternalCondition NO_TRIGGER_DIGITAL st.2) la
  else la.

(** One turn of the loop of [restoreTriggerState]: the current condition
    is pushed at the back, then [m_triggerState[i]] is written to the
    channel. The vector holds more than [i] entries at that point. *)
Definition restoreChannel
    (st : list M2K_TRIGGER_CONDITION_DIGITAL * M2kHardwareTrigger) (i : nat)
  : list M2K_TRIGGER_CONDITION_DIGITAL * M2kHardwareTrigger :=
  let saved := st.1 ++ [getDigitalCondition st.2 i] in
  (saved, setDigitalCondition i (default NO_TRIGGER_DIGITAL (saved !! i)) st.2).

Definition restoreTriggerState (la : LogicAnalyzer) : LogicAnalyzer :=
  if negb (m_started la) && negb (length (m_triggerState la) =? 0)%nat then
    let st := foldl restoreChannel (m_triggerState la, trigger la)
                    (seq 0 (m_nbChannels la)) in
    let back := default NO_TRIGGER_DIGITAL (last st.1) in
    set_trigger [] (setDigitalExternalCondition back st.2) la
  else la.

(** The timeout [startStop] gives to [m_timer->start] in auto mode. *)
Definition oneBufferTimeOut (oneShotOrStream : bool) (timeout : float)
    (adj : Z) : float :=
  if oneShotOrStream then timeout
  else (timeout / to_double (buffersCount adj))%float.

(** [m_timer->start(oneBufferTimeOut)]: [QTimer::start] takes an
    [int msec], so the [double] is converted to [int] at the call; the
    interval is [None] where that conversion is undefined. *)
Definition QTimer_start (msec : float) : option (option Z) :=
  Some (double_to_int msec).

(** What the capture thread does to the members once its capture branch
    is over: [m_started = false], then [restoreTriggerState] called
    directly. *)
Definition captureThread_finish (la : LogicAnalyzer) : LogicAnalyzer :=
  restoreTriggerState (set_run false (m_stopRequested la) la).

(** [startStop], the part run by the calling thread. With [start] it ends
    by creating the capture thread, whose run is [captureThread]. Without,
    it passes the first test only while the thread has not reached
    [m_started = false], so the [join] waits for [captureThread_finish]. *)
Definition startStop (start : bool) (la : LogicAnalyzer) : LogicAnalyzer :=
  if Bool.eqb (m_started la) start then la
  else if start then
    let la1 := set_run true false la in
    let sampleRate := sampleRateButton la1 in
    let bufferSize := to_uint64 (bufferSizeButton la1) in
    let adj := bufferSizeAdjusted bufferSize in
    let la2 := bufferSizeButton_setValue adj la1 in
    let oneShotOrStream := btnStreamOneShot la2 in
    let setSampleRate := sampleRateIn (trigger la2) sampleRate in
    let la3 := sampleRateButton_setValue setSampleRate la2 in
    let la4 :=
      set_trigger (m_triggerState la3)
        (setDigitalStreamingFlag (negb oneShotOrStream) (trigger la3)) la3 in
    let la5 := set_thread (m_captureThread la4)
                 (set_lastCapturedSample 0 (capture la4)) la4 in
    let la6 :=
      if m_autoMode la5 then
        set_plot Auto
          (QTimer_start
             (oneBufferTimeOut oneShotOrStream (m_timerTimeout la5) adj))
          la5
      else la5 in
    set_thread (Some (bufferSize, adj)) (capture la6) la6
  else
    let la1 := set_run false (m_stopRequested la) la in
    match m_captureThread la1 with
    | Some _ =>
      let la2 := captureThread_finish (set_run false true la1) in
      let la3 := set_thread None (capture la2) la2 in
      set_plot Stop (m_timer la3) (restoreTriggerState la3)
    | None => la1
    end.

(** The slot of [m_timer]'s [timeout] signal. *)
Definition timer_timeout (la : LogicAnalyzer) : LogicAnalyzer :=
  saveTriggerState (set_plot (plotTriggerState la) None la).

(** ** Decoders *)

(** [struct srd_decoder], the fields read here. *)
Record srd_decoder : Type := mk_srd_decoder {
  id : string;
  inputs : list string;
  outputs : list string }.

(** An [unsigned char]. *)
Definition uchar (c : ascii) : Z := Z.of_N (N_of_ascii c).

(** [strcmp] on the bytes of two strings, each ending at its first NUL or
    at its end: the difference of the first two bytes that differ. *)
Fixpoint strcmp (s1 s2 : string) : Z :=
  match s1, s2 with
  | EmptyString, EmptyString => 0
  | EmptyString, String c2 _ => 0 - uchar c2
  | String c1 _, EmptyString => uchar c1 - 0
  | String c1 r1, String c2 r2 =>
    if uchar c1 =? uchar c2
    then (if uchar c1 =? 0 then 0 else strcmp r1 r2)
    else uchar c1 - uchar c2
  end.

Definition sort_pds (a b : srd_decoder) : Z := strcmp (id a) (id b).

(** GLib's [g_slist_sort_merge]: the head of the first list goes first
    when the comparison is not positive. *)
Equations? g_slist_sort_merge {A : Type} (compare_func : A -> A -> Z)
    (l1 l2 : list A) : list A by wf (length l1 + length l2)%nat lt :=
  g_slist_sort_merge compare_func [] l2 := l2;
  g_slist_sort_merge compare_func l1 [] := l1;
  g_slist_sort_merge compare_func (x :: xs) (y :: ys)
    with compare_func x y <=? 0 => {
    | true := x :: g_slist_sort_merge compare_func xs (y :: ys);
    | false := y :: g_slist_sort_merge compare_func (x :: xs) ys }.
Proof. all: simpl; lia. Qed.

(** GLib's [g_slist_sort]: a list of two elements or more is cut after
    its first [length / 2] elements ([Nat.div2]), both parts are sorted and merged. *)
Equations? g_slist_sort {A : Type} (compare_func : A -> A -> Z)
    (l : list A) : list A by wf (length l) lt :=
  g_slist_sort compare_func [] := [];
  g_slist_sort compare_func [x] := [x];
  g_slist_sort compare_func (x :: y :: l) :=
    g_slist_sort_merge compare_func
      (g_slist_sort compare_func
         (take (Nat.div2 (length (x :: y :: l))) (x :: y :: l)))
      (g_slist_sort compare_func
         (drop (Nat.div2 (length (x :: y :: l))) (x :: y :: l))).
Proof.
  all: pose proof (Nat.div2_decr _ _ (Nat.le_succ_diag_r (length l))).
  - rewrite length_take. simpl. lia.
  - rewrite length_drop. simpl. apply Nat.lt_succ_r, Nat.le_sub_l.
Qed.

(** The kind a decoder is listed under: the last entry of a list of
    inputs or outputs, the empty string when there is none. *)
Definition lastKind (kinds : list string) : string :=
  default EmptyString (last kinds).

(** A curve of the plot: a data curve of one channel, or an annotation
    curve with its decoder stack, last pushed last. *)
Inductive GenericLogicPlotCurve : Type :=
| LogicDataCurve (channel : Z)
| AnnotationCurve (stack : list srd_decoder).

(** The widgets [updateStackDecoderButton] writes. *)
Record StackDecoderUi : Type := mkStackDecoderUi {
  stackDecoderComboBox : list string;
  stackDecoderWidget_visible : bool }.

(** The ids added to the combo box after its first item: the decoders of
    the sorted list whose input is the output of the top of the stack. *)
Definition stackable (srd_decoder_list : list srd_decoder)
    (top : srd_decoder) : list string :=
  let decoderOutput := lastKind (outputs top) in
  map id
    (List.filter (fun dec => String.eqb (lastKind (inputs dec)) decoderOutput)
       (g_slist_sort sort_pds srd_decoder_list)).

(** [updateStackDecoderButton], with the catalog [srd_decoder_list()]
    returns. The stack of an annotation curve holds its first decoder from
    its creation on, so [stack.back()] exists; the case of an empty stack
    leaves the widgets alone here. *)
Definition updateStackDecoderButton (srd_decoder_list : list srd_decoder)
    (nbChannels : nat) (m_selectedChannel : Z)
    (m_plotCurves : list GenericLogicPlotCurve) (ui : StackDecoderUi)
  : StackDecoderUi :=
  if m_selectedChannel <? Z.of_nat nbChannels then
    mkStackDecoderUi (stackDecoderComboBox ui) false
  else if m_selectedChannel >? Z.of_nat (length m_plotCurves) - 1 then ui
  else
    match m_plotCurves !! Z.to_nat m_selectedChannel with
    | Some (AnnotationCurve stack) =>
      match last stack with
      | Some top =>
        let items :=
          String "-" EmptyString :: stackable srd_decoder_list top in
        mkStackDecoderUi items (1 <? Z.of_nat (length items))
      | None => ui
      end
    | _ => ui
    end.

(** ** More slots of the controller *)

Definition set_autoMode (b : bool) (la : LogicAnalyzer) : LogicAnalyzer :=
  mkLogicAnalyzer (sampleRateButton la) (bufferSizeButton la)
    (btnStreamOneShot la) (m_sampleRate la) (m_bufferSize la)
    (m_timerTimeout la) (m_started la) (m_stopRequested la) b (m_timer la)
    (m_triggerState la) (m_captureThread la) (trigger la)
    (plotTriggerState la) (capture la).

(** The slot [setupTriggerMenu] connects to [ui->btnTriggerMode]: it
    keeps the mode and, in auto mode during a capture, starts the timer
    with the timeout computed from [m_timerTimeout] and [m_bufferSize]. *)
Definition btnTriggerMode_toggled (toggled : bool) (la : LogicAnalyzer)
  : LogicAnalyzer :=
  let la1 := set_autoMode toggled la in
  if m_autoMode la1 && m_started la1 then
    set_plot (plotTriggerState la1)
      (QTimer_start
         (oneBufferTimeOut (btnStreamOneShot la1) (m_timerTimeout la1)
            (m_bufferSize la1)))
      la1
  else la1.

(** [on_btnStreamOneShot_toggled], as far as the members and the trigger
    go: the button is checked as [toggled] says, the streaming flag of the
    trigger gets [toggled], and the buffer size control gets the maximum
    [maxBufferSize toggled]. *)
Definition on_btnStreamOneShot_toggled (toggled : bool) (la : LogicAnalyzer)
  : LogicAnalyzer :=
  mkLogicAnalyzer (sampleRateButton la) (bufferSizeButton la) toggled
    (m_sampleRate la) (m_bufferSize la) (m_timerTimeout la) (m_started la)
    (m_stopRequested la) (m_autoMode la) (m_timer la) (m_triggerState la)
    (m_captureThread la)
    (setDigitalStreamingFlag toggled (trigger la))
    (plotTriggerState la) (capture la).

(** ** The trigger menus *)

(** The value of a condition as an [int], and the condition of a value. *)
Definition int_of_condition (c : M2K_TRIGGER_CONDITION_DIGITAL) : Z :=
  match c with
  | RISING_EDGE_DIGITAL => 0
  | FALLING_EDGE_DIGITAL => 1
  | LOW_LEVEL_DIGITAL => 2
  | HIGH_LEVEL_DIGITAL => 3
  | ANY_EDGE_DIGITAL => 4
  | NO_TRIGGER_DIGITAL => 5
  end.

Definition condition_of_int (z : Z) : option M2K_TRIGGER_CONDITION_DIGITAL :=
  match z with
  | 0 => Some RISING_EDGE_DIGITAL
  | 1 => Some FALLING_EDGE_DIGITAL
  | 2 => Some LOW_LEVEL_DIGITAL
  | 3 => Some HIGH_LEVEL_DIGITAL
  | 4 => Some ANY_EDGE_DIGITAL
  | 5 => Some NO_TRIGGER_DIGITAL
  | _ => None
  end.

(** [(condition + 1) % 6]: the index a combo box shows for a condition. *)
Definition comboIndex_of_condition (c : M2K_TRIGGER_CONDITION_DIGITAL) : Z :=
  Z.rem (int_of_condition c + 1) 6.

(** [static_cast<M2K_TRIGGER_CONDITION_DIGITAL>((index + 5) % 6)]: the
    condition a combo box index stands for; no condition has the value
    when the index is under -5, which no combo box gives. *)
Definition condition_of_comboIndex (index : Z)
  : option M2K_TRIGGER_CONDITION_DIGITAL :=
  condition_of_int (Z.rem (index + 5) 6).

(** [setDigitalCondition(m_selectedChannel, c)] with an [int] channel: the
    library rejects a channel that does not exist. *)
Definition setDigitalCondition_int (channel : Z)
    (c : M2K_TRIGGER_CONDITION_DIGITAL) (t : M2kHardwareTrigger)
  : M2kHardwareTrigger :=
  if channel <? 0 then t else setDigitalCondition (Z.to_nat channel) c t.

(** The slot connected to [ui->triggerComboBox]. *)
Definition triggerComboBox_currentIndexChanged (index m_selectedChannel : Z)
    (t : M2kHardwareTrigger) : M2kHardwareTrigger :=
  match condition_of_comboIndex index with
  | Some c => setDigitalCondition_int m_selectedChannel c t
  | None => t
  end.

(** A combo box told to show an index: its [currentIndexChanged] signal
    runs the slot only when the index changes. *)
Definition setCurrentIndex {S : Type} (slot : Z -> S -> S) (current index : Z)
    (s : S) : S :=
  if current =? index then s else slot index s.

(** [on_btnChannelSettings_toggled], its part on the trigger combo box:
    with a data channel selected the box shows the condition of the
    channel. The signals of the box are not blocked here. Gives the index
    of the box and the trigger. *)
Definition on_btnChannelSettings_toggled (checked : bool)
    (nbChannels : nat) (m_selectedChannel triggerComboBox : Z)
    (t : M2kHardwareTrigger) : Z * M2kHardwareTrigger :=
  if checked && negb (m_selectedChannel =? -1)
     && (m_selectedChannel <? Z.of_nat nbChannels) then
    let condition := getDigitalCondition t (Z.to_nat m_selectedChannel) in
    let index := comboIndex_of_condition condition in
    (index,
     setCurrentIndex
       (fun i => triggerComboBox_currentIndexChanged i m_selectedChannel)
       triggerComboBox index t)
  else (triggerComboBox, t).

(** The external trigger part of the trigger menu: the two combo boxes,
    and the source and the trigger of the front-end. The source is the
    value of [M2K_TRIGGER_SOURCE_DIGITAL]. *)
Record TriggerMenu : Type := mkTriggerMenu {
  externalTriggerSourceComboBox : Z;
  externalTriggerConditionComboBox : Z;
  externalTriggerConditionComboBox_disabled : bool;
  digitalSource : Z;
  menuTrigger : M2kHardwareTrigger }.

(** [M2K_TRIGGER_SOURCE_DIGITAL::SRC_NONE] in libm2k. *)
Definition SRC_NONE : Z := 2.

(** The slot connected to [ui->externalTriggerConditionComboBox]. *)
Definition externalTriggerCondition_currentIndexChanged (index : Z)
    (m : TriggerMenu) : TriggerMenu :=
  mkTriggerMenu (externalTriggerSourceComboBox m) index
    (externalTriggerConditionComboBox_disabled m) (digitalSource m)
    (match condition_of_comboIndex index with
     | Some c => setDigitalExternalCondition c (menuTrigger m)
     | None => menuTrigger m
     end).

(** The slot connected to [ui->externalTriggerSourceComboBox]: the source
    is set; for the oscilloscope (an index other than 0) the condition box
    is told to show its first item; the box is disabled exactly then. *)
Definition externalTriggerSource_currentIndexChanged (index : Z)
    (m : TriggerMenu) : TriggerMenu :=
  let m1 := mkTriggerMenu index (externalTriggerConditionComboBox m)
              (externalTriggerConditionComboBox_disabled m) index
              (menuTrigger m) in
  let m2 :=
    if index =? 0 then m1
    else setCurrentIndex externalTriggerCondition_currentIndexChanged
           (externalTriggerConditionComboBox m1) 0 m1 in
  mkTriggerMenu (externalTriggerSourceComboBox m2)
    (externalTriggerConditionComboBox m2) (negb (index =? 0))
    (digitalSource m2) (menuTrigger m2).

(** The slot connected to [ui->btnEnableExternalTrigger]. *)
Definition btnEnableExternalTrigger_toggled (on : bool) (m : TriggerMenu)
  : TriggerMenu :=
  if on then
    mkTriggerMenu (externalTriggerSourceComboBox m)
      (externalTriggerConditionComboBox m)
      (externalTriggerConditionComboBox_disabled m)
      (externalTriggerSourceComboBox m)
      (match condition_of_comboIndex (externalTriggerConditionComboBox m) with
       | Some c => setDigitalExternalCondition c (menuTrigger m)
       | None => menuTrigger m
       end)
  else
    mkTriggerMenu (externalTriggerSourceComboBox m)
      (externalTriggerConditionComboBox m)
      (externalTriggerConditionComboBox_disabled m) SRC_NONE (menuTrigger m).

(** The end of [setupTriggerMenu]: with the signals of both boxes
    blocked, the condition box shows the external condition of the
    front-end, the source box its first item, and the source is set to
    none. *)
Definition setupTriggerMenu_external (m : TriggerMenu) : TriggerMenu :=
  mkTriggerMenu 0
    (comboIndex_of_condition (digitalExternalCondition (menuTrigger m)))
    (externalTriggerConditionComboBox_disabled m) SRC_NONE (menuTrigger m).

(** ** Adding and stacking decoders *)

(** The items [setupDecoders] gives to [ui->addDecoderComboBox]: the
    prompt, then the ids of the decoders of the sorted list whose input
    is "logic". *)
Definition setupDecoders (srd_decoder_list : list srd_decoder)
  : list string :=
  "Select a decoder to add"%string
  :: map id
       (List.filter
          (fun dec => String.eqb (lastKind (inputs dec)) "logic"%string)
          (g_slist_sort sort_pds srd_decoder_list)).

(** The search of the slot of [ui->addDecoderComboBox]: the loop goes
    through the whole list and keeps the last decoder with the id. *)
Definition addDecoder_search (decoder : string)
    (srd_decoder_list : list srd_decoder) : option srd_decoder :=
  foldl (fun initialDecoder dec =>
           if String.eqb (id dec) decoder then Some dec else initialDecoder)
        None srd_decoder_list.

(** The slot of [ui->addDecoderComboBox], up to the creation of the
    curve: nothing at index 0; otherwise the decoder given to the new
    [AnnotationCurve], [None] standing for [nullptr]. *)
Definition addDecoderComboBox_currentIndexChanged (currentIndex : Z)
    (decoder : string) (srd_decoder_list : list srd_decoder)
  : option (option srd_decoder) :=
  if currentIndex =? 0 then None
  else Some (addDecoder_search decoder srd_decoder_list).

(** The search of the slot of [ui->stackDecoderComboBox]: the loop stops
    at the first decoder with the id. *)
Fixpoint stackDecoder_search (text : string)
    (srd_decoder_list : list srd_decoder) : option srd_decoder :=
  match srd_decoder_list with
  | [] => None
  | dec :: rest =>
    if String.eqb (id dec) text then Some dec
    else stackDecoder_search text rest
  end.

(** The slot of [ui->stackDecoderComboBox], up to the call of
    [curve->stackDecoder]: the decoder stacked on the selected curve, if
    any. *)
Definition stackDecoderComboBox_currentTextChanged (text : string)
    (currentIndex : Z) (srd_decoder_list : list srd_decoder)
    (nbChannels : nat) (m_selectedChannel : Z)
    (m_plotCurves : list GenericLogicPlotCurve) : option srd_decoder :=
  if m_selectedChannel <? Z.of_nat nbChannels then None
  else if m_selectedChannel >? Z.of_nat (length m_plotCurves) - 1 then None
  else if currentIndex =? 0 then None
  else
    match m_plotCurves !! Z.to_nat m_selectedChannel with
    | Some (AnnotationCurve _) => stackDecoder_search text srd_decoder_list
    | _ => None
    end.

(** ** The right menu *)

(** The buttons that open a panel of the right menu. *)
Inductive CustomPushButton : Set :=
| btnGeneralSettings
| btnCursors
| btnTrigger
| btnChannelSettings.

(** The pages of [ui->stackedWidget]: their number and the indexes of
    three of them, as [setupUi] reads them. *)
Record Panels : Type := mkPanels {
  stackedWidget_count : Z;
  gsettings_panel : Z;
  triggers_panel : Z;
  channelSettings_panel : Z }.

(** The property "id" [setupUi] gives to each button. *)
Definition button_id (p : Panels) (btn : CustomPushButton) : Z :=
  match btn with
  | btnGeneralSettings => - gsettings_panel p
  | btnCursors => -1
  | btnTrigger => - triggers_panel p
  | btnChannelSettings => - channelSettings_panel p
  end.

(** The history of the buttons, the actions waiting for the end of an
    animation, the page shown, the pages whose size policy is
    [Expanding], and the calls of [ui->rightMenu->toggleMenu]. *)
Record RightMenu : Type := mkRightMenu {
  m_menuOrder : list CustomPushButton;
  m_menuButtonActions : list (CustomPushButton * bool);
  stackedWidget_currentIndex : Z;
  expanding : list bool;
  toggleMenu : list bool }.

Definition CustomPushButton_eqb (a b : CustomPushButton) : bool :=
  match a, b with
  | btnGeneralSettings, btnGeneralSettings => true
  | btnCursors, btnCursors => true
  | btnTrigger, btnTrigger => true
  | btnChannelSettings, btnChannelSettings => true
  | _, _ => false
  end.

(** [QList::contains] and [QList::removeOne], which removes the first
    occurrence. *)
Fixpoint contains (l : list CustomPushButton) (btn : CustomPushButton)
  : bool :=
  match l with
  | [] => false
  | x :: rest => CustomPushButton_eqb x btn || contains rest btn
  end.

Fixpoint removeOne (l : list CustomPushButton) (btn : CustomPushButton)
  : list CustomPushButton :=
  match l with
  | [] => []
  | x :: rest => if CustomPushButton_eqb x btn then rest
                 else x :: removeOne rest btn
  end.

(** [settingsPanelUpdate]: the page 0 or [-id] becomes the current one,
    unless the stack has no such page, and it alone is made
    [Expanding]. *)
Definition settingsPanelUpdate (p : Panels) (id : Z) (m : RightMenu)
  : RightMenu :=
  let index := if id >=? 0 then 0 else - id in
  let current :=
    if (0 <=? index) && (index <? stackedWidget_count p) then index
    else stackedWidget_currentIndex m in
  mkRightMenu (m_menuOrder m) (m_menuButtonActions m) current
    (map (fun i => Z.of_nat i =? current)
         (seq 0 (Z.to_nat (stackedWidget_count p))))
    (toggleMenu m).

Definition toggleRightMenu (p : Panels) (btn : CustomPushButton)
    (checked : bool) (m : RightMenu) : RightMenu :=
  let id := button_id p btn in
  let order :=
    if negb (id =? - gsettings_panel p) then
      if negb (contains (m_menuOrder m) btn) then m_menuOrder m ++ [btn]
      else removeOne (m_menuOrder m) btn ++ [btn]
    else m_menuOrder m in
  let m1 := mkRightMenu order (m_menuButtonActions m)
              (stackedWidget_currentIndex m) (expanding m) (toggleMenu m) in
  let m2 := if checked then settingsPanelUpdate p id m1 else m1 in
  mkRightMenu (m_menuOrder m2) (m_menuButtonActions m2)
    (stackedWidget_currentIndex m2) (expanding m2)
    (toggleMenu m2 ++ [checked]).

(** [triggerRightMenuToggle]; [animInProgress] is what
    [ui->rightMenu->animInProgress()] answers. *)
Definition triggerRightMenuToggle (p : Panels) (animInProgress : bool)
    (btn : CustomPushButton) (checked : bool) (m : RightMenu) : RightMenu :=
  if animInProgress then
    mkRightMenu (m_menuOrder m) (m_menuButtonActions m ++ [(btn, checked)])
      (stackedWidget_currentIndex m) (expanding m) (toggleMenu m)
  else toggleRightMenu p btn checked m.

(** The loop of [rightMenuFinished] on the actions still queued. *)
Fixpoint rightMenuFinished_loop (p : Panels)
    (actions : list (CustomPushButton * bool)) (m : RightMenu) : RightMenu :=
  match actions with
  | [] => m
  | action :: rest =>
    rightMenuFinished_loop p rest
      (toggleRightMenu p action.1 action.2
         (mkRightMenu (m_menuOrder m) rest (stackedWidget_currentIndex m)
            (expanding m) (toggleMenu m)))
  end.

Definition rightMenuFinished (p : Panels) (m : RightMenu) : RightMenu :=
  rightMenuFinished_loop p (m_menuButtonActions m) m.

(** The slot [connectSignalsAndSlots] connects to [ui->cursorsBox]: when
    the box is unchecked the cursors button is unchecked, which runs
    [on_btnCursors_toggled(false)] if the button was checked, and the
    button is removed from the history. *)
Definition cursorsBox_toggled (p : Panels) (toggled : bool)
    (btnCursors_checked animInProgress : bool) (m : RightMenu) : RightMenu :=
  if toggled then m
  else
    let m1 := if btnCursors_checked
              then triggerRightMenuToggle p animInProgress btnCursors false m
              else m in
    mkRightMenu (removeOne (m_menuOrder m1) btnCursors)
      (m_menuButtonActions m1) (stackedWidget_currentIndex m1)
      (expanding m1) (toggleMenu m1).

(** ** The bitfield widget *)

(** [src/bitfieldwidget.cpp]. The widths met are those of the bitfields
    of a 32-bit register: [pow(2, width)] is exact, and its conversions to
    [uint32_t] and [int] are defined, for a width from 0 to 31. *)
Module Bitfield.

(** Conversion to [uint32_t]. *)
Definition to_uint32 (z : Z) : Z := z mod 2 ^ 32.

(** A child element of the "Options" element: its tag, and the text of
    its first "Description" child, empty when it has none. *)
Record QDomElement : Type := mkElement {
  tagName : string;
  Description : string }.

(** The members of the widget read here; [options] is [None] for a null
    element, and otherwise the child elements of "Options" in document
    order. *)
Record BitfieldWidget : Type := mkBitfieldWidget {
  width : Z;
  regOffset : Z;
  sliceWidth : Z;
  defaultValue : Z;
  options : option (list QDomElement) }.

(** The constructor for a single bit. *)
Definition BitfieldWidget_bit (bitNumber : Z) : BitfieldWidget :=
  mkBitfieldWidget 1 bitNumber 1 0 None.

(** [pow(2, width) - 1] cut to an integer: 0 for a negative width. *)
Definition pow2_minus_1 (width : Z) : Z :=
  if width <? 0 then 0 else 2 ^ width - 1.

(** [options.firstChildElement("Option")], [options.lastChildElement()]
    and [temp.nextSiblingElement()], an element being its position among
    the children and [None] the null element. *)
Fixpoint firstChildElement_Option (children : list QDomElement) (i : nat)
  : option nat :=
  match children with
  | [] => None
  | e :: rest =>
    if String.eqb (tagName e) "Option"%string then Some i
    else firstChildElement_Option rest (S i)
  end.

Definition lastChildElement (children : list QDomElement) : option nat :=
  match children with
  | [] => None
  | _ :: _ => Some (length children - 1)%nat
  end.

Definition nextSiblingElement (children : list QDomElement)
    (temp : option nat) : option nat :=
  match temp with
  | Some i => if (S i <? length children)%nat then Some (S i) else None
  | None => None
  end.

(** [temp.firstChildElement("Description").text()]. *)
Definition Description_text (children : list QDomElement)
    (temp : option nat) : string :=
  match temp with
  | Some i => match children !! i with
              | Some e => Description e
              | None => EmptyString
              end
  | None => EmptyString
  end.

Definition element_eqb (a b : option nat) : bool :=
  match a, b with
  | Some i, Some j => (i =? j)%nat
  | None, None => true
  | _, _ => false
  end.

(** The loop of [createWidget] that fills the combo box, with the
    [addItem] that follows it; [None] when it is still running after
    [fuel] turns. *)
Fixpoint options_loop (fuel : nat) (children : list QDomElement)
    (temp : option nat) (items : list string) : option (list string) :=
  match fuel with
  | O => None
  | S fuel' =>
    if element_eqb (lastChildElement children) temp
    then Some (items ++ [Description_text children temp])
    else options_loop fuel' children (nextSiblingElement children temp)
           (items ++ [Description_text children temp])
  end.

(** The value widgets after [createWidget]: the page of the stacked
    widget (1 for the spin box, 0 for the combo box), the maximum given
    to the spin box if any, and the items of the combo box. The labels of
    the bits are not part of this. *)
Record ValueWidgets : Type := mkValueWidgets {
  stackedWidget_currentIndex : Z;
  valueSpinBox_maximum : option Z;
  valueComboBox : list string }.

Definition createWidget (fuel : nat) (w : BitfieldWidget)
  : option ValueWidgets :=
  match options w with
  | None => Some (mkValueWidgets 1 (Some (pow2_minus_1 (width w))) [])
  | Some children =>
    match options_loop fuel children
            (firstChildElement_Option children 0) [] with
    | Some items => Some (mkValueWidgets 0 None items)
    | None => None
    end
  end.

(** What [updateValue] shows: the value given to the spin box or the
    index given to the combo box. *)
Inductive Shown : Set :=
| valueSpinBox_setValue (v : Z)
| valueComboBox_setCurrentIndex (i : Z).

Definition shown_value (s : Shown) : Z :=
  match s with
  | valueSpinBox_setValue v => v
  | valueComboBox_setCurrentIndex i => i
  end.

(** [updateValue(uint32_t *value)]: what is shown, and the new
    [*value]. *)
Definition updateValue (w : BitfieldWidget) (currentIndex : Z) (value : Z)
  : Shown * Z :=
  let field := Z.land value (to_uint32 (to_uint32 (2 ^ width w) - 1)) in
  (if currentIndex =? 1 then valueSpinBox_setValue field
   else valueComboBox_setCurrentIndex field,
   Z.shiftr value (width w)).

(** [setValue(int value)]: the arguments of the signal [valueChanged],
    the value shifted to its place and the mask of the bitfield. *)
Definition setValue (w : BitfieldWidget) (value : Z) : Z * Z :=
  (to_uint32 (Z.shiftl value (regOffset w)),
   to_uint32 (Z.shiftl (to_uint32 (pow2_minus_1 (width w))) (regOffset w))).

(** [updateValue] through a row of widgets, each one taking the value
    the one before left: what each one shows. *)
Fixpoint updateValues (ws : list BitfieldWidget) (currentIndex : Z)
    (value : Z) : list Z :=
  match ws with
  | [] => []
  | w :: rest =>
    let r := updateValue w currentIndex value in
    shown_value r.1 :: updateValues rest currentIndex r.2
  end.

End Bitfield.

(** ** Notions used by the statements *)

(** The ranges [evs], in their order, go from [lo] to [hi]: each one is
    not empty and starts where the one before ends. *)
Fixpoint chain (lo hi : Z) (evs : list (Z * Z)) : Prop :=
  match evs with
  | [] => lo = hi
  | e :: rest => e.1 = lo /\ e.1 < e.2 /\ chain e.2 hi rest
  end.

(** The end of the last chunk copied into the buffer, 0 before the
    first. *)
Definition completed (c : Capture) : Z :=
  match last (copied c) with
  | Some w => w.1 + w.2
  | None => 0
  end.

(** The upper bound of the last range emitted, 0 before the first. *)
Definition lastEmittedEnd (c : Capture) : Z :=
  match last (emitted c) with
  | Some e => e.2
  | None => 0
  end.

(** Order of two ids under [strcmp]. *)
Definition id_le (a b : string) : Prop := strcmp a b <= 0.

(** A string without NUL, as the bytes of a C string are. *)
Fixpoint c_string (s : string) : Prop :=
  match s with
  | EmptyString => True
  | String c rest => uchar c <> 0 /\ c_string rest
  end.

(** The kind a decoder takes, the kind it gives. *)
Definition inputKind (dec : srd_decoder) : string := lastKind (inputs dec).
Definition outputKind (dec : srd_decoder) : string := lastKind (outputs dec).

(** What holds during a capture started with an empty vector, after any
    number of firings of the timer: the vector is empty and the channels
    have the conditions they had, or the vector starts with those
    conditions and holds more. *)
Definition saved_during_capture
    (original : list M2K_TRIGGER_CONDITION_DIGITAL) (la : LogicAnalyzer)
  : Prop :=
  m_started la = true /\
  is_Some (m_captureThread la) /\
  length (digitalCondition (trigger la)) = length original /\
  ((m_triggerState la = [] /\ digitalCondition (trigger la) = original) \/
   (exists tl, tl <> [] /\ m_triggerState la = original ++ tl)).

(** The condition box of the external trigger shows the external
    condition of the front-end. *)
Definition external_consistent (m : TriggerMenu) : Prop :=
  condition_of_comboIndex (externalTriggerConditionComboBox m)
  = Some (digitalExternalCondition (menuTrigger m)).

(** The widths of a row of bitfield widgets, added up. *)
Definition widths_sum (ws : list Bitfield.BitfieldWidget) : Z :=
  foldr (fun w acc => Bitfield.width w + acc) 0 ws.

(** A width and an offset that fit a 32-bit register. *)
Definition fits_register (w : Bitfield.BitfieldWidget) : Prop :=
  0 <= Bitfield.regOffset w /\ 0 <= Bitfield.width w < 32 /\
  Bitfield.regOffset w + Bitfield.width w <= 32.

(** ** Example inputs *)

(** Every read succeeds and nobody asks to stop. *)
Definition env_ok : Environment :=
  mkEnvironment (fun _ _ => Samples) (fun _ => false).

(** Every read is rejected by the driver. *)
Definition env_rejected : Environment :=
  mkEnvironment
    (fun _ _ => InvalidArgument "size"%string) (fun _ => false).

(** Every read succeeds; the stop flag is up from the second check on. *)
Definition env_stop_at_1 : Environment :=
  mkEnvironment (fun _ _ => Samples) (fun k => (1 <=? k)%nat).

(** A front-end with two channels and an external condition, which
    applies the sample rate it is asked for. *)
Definition trigger_example : M2kHardwareTrigger :=
  mkTrigger [RISING_EDGE_DIGITAL; LOW_LEVEL_DIGITAL] FALLING_EDGE_DIGITAL
            false (fun rate => rate).

(** A stopped analyzer: 1 MHz, the given buffer size, mode and auto
    mode. *)
Definition analyzer_example (bufferSize : Z) (oneShot autoMode : bool)
  : LogicAnalyzer :=
  mkLogicAnalyzer 1000000%float bufferSize oneShot 1000000%float bufferSize
    (timerTimeout 1000000%float bufferSize) false false autoMode None []
    None trigger_example Stop Capture_start.

(** A small catalog of decoders. *)
Definition catalog_example : list srd_decoder :=
  [mk_srd_decoder "uart" ["logic"] ["uart"];
   mk_srd_decoder "spi" ["logic"] ["spi"];
   mk_srd_decoder "modbus" ["uart"] ["modbus"];
   mk_srd_decoder "midi" ["uart"] ["midi"];
   mk_srd_decoder "dmx512" ["logic"] ["dmx512"]]%string.

(** Two data curves and an annotation curve whose stack is the UART
    decoder alone. *)
Definition uart_example : srd_decoder :=
  (mk_srd_decoder "uart" ["logic"] ["uart"])%string.

Definition spi_example : srd_decoder :=
  (mk_srd_decoder "spi" ["logic"] ["spi"])%string.

(** A catalog in which two ids come twice, with different outputs. *)
Definition catalog_twice_example : list srd_decoder :=
  [mk_srd_decoder "uart" ["logic"] ["uart"];
   mk_srd_decoder "midi" ["uart"] ["midi"];
   mk_srd_decoder "spi" ["logic"] ["spi"];
   mk_srd_decoder "uart" ["logic"] ["uart_second"];
   mk_srd_decoder "midi" ["uart"] ["midi_second"]]%string.

Definition curves_example : list GenericLogicPlotCurve :=
  [LogicDataCurve 0; LogicDataCurve 1; AnnotationCurve [uart_example]].

(** The external trigger menu of the example front-end, as
    [setupTriggerMenu] leaves it. *)
Definition triggerMenu_example : TriggerMenu :=
  setupTriggerMenu_external (mkTriggerMenu 0 0 false 0 trigger_example).

(** A stack of four pages, and the history [setupUi] starts with. *)
Definition panels_example : Panels := mkPanels 4 0 2 3.

Definition menu_example : RightMenu := mkRightMenu [btnTrigger] [] 0 [] [].

(** A bitfield of four bits at offset 8, with a spin box; one of two bits
    at offset 12, with three options. *)
Definition bitfield_example : Bitfield.BitfieldWidget :=
  Bitfield.mkBitfieldWidget 4 8 4 0 None.

Definition bitfield_options_example : Bitfield.BitfieldWidget :=
  Bitfield.mkBitfieldWidget 2 12 2 0
    (Some [Bitfield.mkElement "Option" "off";
           Bitfield.mkElement "Option" "slow";
           Bitfield.mkElement "Option" "fast"]%string).

(** An "Options" element whose only child is not an "Option". *)
Definition bitfield_no_option_example : Bitfield.BitfieldWidget :=
  Bitfield.mkBitfieldWidget 2 12 2 0
    (Some [Bitfield.mkElement "Note" "unused"]%string).

(** * Properties *)

(** ** Integer conversions and buffer sizes *)

Lemma to_uint64_small (z : Z) : 0 <= z < 2 ^ 64 -> to_uint64 z = z.
Proof. intros H. unfold to_uint64. apply Z.mod_small. exact H. Qed.

Lemma to_uint64_range (z : Z) : 0 <= to_uint64 z < 2 ^ 64.
Proof. unfold to_uint64. apply Z.mod_pos_bound. lia. Qed.

Lemma to_int_small (z : Z) : - 2 ^ 31 <= z < 2 ^ 31 -> to_int z = z.
Proof. intros H. unfold to_int. rewrite Z.mod_small; lia. Qed.

Lemma bufferSizeAdjusted_eq (r : Z) :
  0 <= r <= 2 ^ 30 -> bufferSizeAdjusted r = (r + 3) / 4 * 4.
Proof.
  intros H. unfold bufferSizeAdjusted.
  assert (0 <= (r + 3) / 4 * 4 <= r + 3).
  { pose proof (Z.mul_div_le (r + 3) 4). pose proof (Z.div_pos (r + 3) 4). lia. }
  rewrite (to_uint64_small (r + 3)) by lia.
  rewrite to_uint64_small by lia.
  apply to_int_small. lia.
Qed.

Lemma maxBufferSize_bounds (toggled : bool) :
  maxBufferSize toggled mod 4 = 0 /\ 0 < maxBufferSize toggled <= 2 ^ 30.
Proof. destruct toggled; split; try reflexivity; vm_compute; intuition discriminate. Qed.

(** Rounding up to a multiple of four gives the least multiple of four
    that is not below the size; it stays under a ceiling that is itself a
    multiple of four. *)
Lemma bufferSizeAdjusted_least (r ceiling : Z) :
  0 <= r <= ceiling -> ceiling <= 2 ^ 30 -> ceiling mod 4 = 0 ->
  bufferSizeAdjusted r mod 4 = 0 /\
  r <= bufferSizeAdjusted r /\
  (forall m, m mod 4 = 0 -> r <= m -> bufferSizeAdjusted r <= m) /\
  bufferSizeAdjusted r <= ceiling.
Proof.
  intros Hr Hc Hm. rewrite bufferSizeAdjusted_eq by lia.
  assert (Hleast : forall m, m mod 4 = 0 -> r <= m -> (r + 3) / 4 * 4 <= m).
  { intros m Hm4 Hle.
    pose proof (Z.div_mod m 4).
    assert ((r + 3) / 4 < m / 4 + 1); [| lia].
    apply Z.div_lt_upper_bound; lia. }
  repeat split.
  - apply Z.mod_mul. lia.
  - pose proof (Z.mod_pos_bound (r + 3) 4). pose proof (Z.div_mod (r + 3) 4). lia.
  - exact Hleast.
  - apply Hleast; [exact Hm | lia].
Qed.

(** [startStop(true)] on a stopped analyzer gives the rounded size to the
    control, to [m_bufferSize] and to the capture thread. *)
Lemma startStop_applies_buffer_size (la : LogicAnalyzer) :
  m_started la = false ->
  let adj := bufferSizeAdjusted (to_uint64 (bufferSizeButton la)) in
  bufferSizeButton (startStop true la) = adj /\
  m_bufferSize (startStop true la) = adj /\
  m_captureThread (startStop true la)
    = Some (to_uint64 (bufferSizeButton la), adj).
Proof.
  intros Hs. unfold startStop. rewrite Hs. simpl.
  destruct (m_autoMode la); simpl; auto.
Qed.

(** C7. For a requested size the control accepts (from 0 to the ceiling
    of the mode), the size [startStop] applies is the least multiple of 4
    not below the request, and it is at most 4M in oneshot mode and at
    most 1G in streaming mode. *)
Theorem applied_buffer_size_least_multiple_of_4 (la : LogicAnalyzer) :
  m_started la = false ->
  0 <= bufferSizeButton la <= maxBufferSize (btnStreamOneShot la) ->
  let applied := bufferSizeButton (startStop true la) in
  applied = bufferSizeAdjusted (bufferSizeButton la) /\
  applied mod 4 = 0 /\
  bufferSizeButton la <= applied /\
  (forall m, m mod 4 = 0 -> bufferSizeButton la <= m -> applied <= m) /\
  applied <= (if btnStreamOneShot la then 4 * 1024 * 1024
              else 1024 * 1024 * 1024).
Proof.
  intros Hs Hr applied.
  destruct (maxBufferSize_bounds (btnStreamOneShot la)) as [Hm4 Hmax].
  destruct (startStop_applies_buffer_size la Hs) as [Happ _].
  assert (Hu : to_uint64 (bufferSizeButton la) = bufferSizeButton la)
    by (apply to_uint64_small; lia).
  unfold applied. rewrite Happ, Hu.
  destruct (bufferSizeAdjusted_least (bufferSizeButton la)
              (maxBufferSize (btnStreamOneShot la)))
    as (H1 & H2 & H3 & H4); try lia.
  repeat split; auto.
Qed.

(** ** The chunk size of a streaming capture *)

(** The loop that picks [chunks] leaves with the shifted size at most
    [1 << 19]. *)
Lemma chunks_loop_exit (adj chunks : Z) :
  Z.shiftr adj (chunks_loop adj chunks) <= 2 ^ 19.
Proof.
  funelim (chunks_loop adj chunks).
  - assumption.
  - clear Heq. change (Z.shiftl 1 19) with (2 ^ 19) in l. lia.
Qed.

(** The counter only grows. *)
Lemma chunks_loop_ge (adj chunks : Z) : chunks <= chunks_loop adj chunks.
Proof.
  funelim (chunks_loop adj chunks); lia.
Qed.

(** For an [int], the counter that starts at 4 stops at 12 at the latest:
    every shift count is below the 32 bits of the operand and the
    [uint64_t] counter does not wrap. *)
Lemma chunks_loop_le_12 (adj chunks : Z) :
  - 2 ^ 31 <= adj < 2 ^ 31 -> 0 <= chunks <= 12 ->
  chunks_loop adj chunks <= 12.
Proof.
  funelim (chunks_loop adj chunks); intros Hadj Hc.
  - assert (chunks <> 12); [| apply H; lia].
    intros ->. clear Heq.
    change (Z.shiftl 1 19) with (2 ^ 19) in g.
    rewrite Z.shiftr_div_pow2 in g by lia.
    assert (adj / 2 ^ 12 < 2 ^ 19) by (apply Z.div_lt_upper_bound; lia).
    lia.
  - lia.
Qed.

Lemma chunk_size_cases (adj : Z) :
  let shifted := Z.shiftr adj (chunks_loop adj 4) in
  (0 < shifted <= 2 ^ 19 /\ chunk_size adj = shifted) \/
  (shifted <= 0 /\ chunk_size adj = 4).
Proof.
  intros shifted. unfold chunk_size. fold shifted.
  pose proof (chunks_loop_exit adj 4) as Hexit. fold shifted in Hexit.
  destruct (Z.gtb_spec shifted 0); [left | right]; split; try lia.
  apply to_uint64_small. lia.
Qed.

Lemma chunk_size_pos (adj : Z) : 0 < chunk_size adj.
Proof.
  destruct (chunk_size_cases adj) as [[Hpos Heq] | [Hneg Heq]]; lia.
Qed.

(** C6, amended. Whatever the adjusted size, the chunk size is at most
    [2^19] and at least 1; the count of shifts is chosen so that the
    shifted size is at most [2^19]; the chunk size is that shifted size
    when it is positive and 4 otherwise. *)
Theorem chunk_size_bounds (adj : Z) :
  chunk_size adj <= 2 ^ 19 /\
  1 <= chunk_size adj /\
  Z.shiftr adj (chunks_loop adj 4) <= 2 ^ 19 /\
  (chunk_size adj = Z.shiftr adj (chunks_loop adj 4) \/
   (Z.shiftr adj (chunks_loop adj 4) <= 0 /\ chunk_size adj = 4)).
Proof.
  pose proof (chunks_loop_exit adj 4).
  destruct (chunk_size_cases adj) as [[Hpos Heq] | [Hneg Heq]];
    rewrite Heq; repeat split; auto; lia.
Qed.

(** C6 as stated fails: a request of 13 samples is adjusted to 16, and
    the chunk size is then 1, below 4. *)
Lemma chunk_size_of_16_is_1 :
  bufferSizeAdjusted 13 = 16 /\
  chunk_size (bufferSizeAdjusted 13) = 1 /\
  ~ (chunk_size (bufferSizeAdjusted 13) <= 2 ^ 19 /\
     4 <= chunk_size (bufferSizeAdjusted 13)).
Proof.
  assert (H : chunk_size (bufferSizeAdjusted 13) = 1) by (vm_compute; reflexivity).
  split; [reflexivity | split; [exact H |]].
  rewrite H. lia.
Qed.

(** ** The streaming loop *)

Section Streaming.

Variable env : Environment.

(** With every read successful, the loop ends within [totalSamples]
    iterations; what it emits goes, range after range, from [absIndex]
    to the final [m_lastCapturedSample]; it ends by its condition
    exactly when that is all of the buffer, which is the case when the
    stop flag is never seen. *)
Lemma streamLoop_reads_ok (fuel : nat) :
  (forall j n, getSamplesP env j n = Samples) ->
  forall (k : nat) (chunk total abs : Z) (c : Capture),
  0 < chunk -> 0 < total -> 0 <= abs -> abs + total < 2 ^ 64 ->
  (Z.to_nat total <= fuel)%nat ->
  m_lastCapturedSample c = abs ->
  let r := streamLoop env fuel k chunk total abs c in
  r.1 <> Running /\
  (exists evs, emitted r.2 = emitted c ++ evs /\
               chain abs (m_lastCapturedSample r.2) evs) /\
  (r.1 = Completed <-> m_lastCapturedSample r.2 = abs + total) /\
  ((forall j, stopRequested env j = false) -> r.1 = Completed).
Proof.
  intros Hok. induction fuel as [| fuel' IH];
    intros k chunk total abs c Hchunk Htotal Habs Hsum Hfuel Hlast.
  - lia.
  - cbn [streamLoop]. rewrite Hok. cbv zeta.
    set (cs := Z.min chunk total).
    assert (Hcs : 0 < cs <= total) by (unfold cs; lia).
    rewrite (to_uint64_small (abs + cs)) by lia.
    rewrite (to_uint64_small (total - cs)) by lia.
    replace (abs + cs - cs) with abs by lia.
    rewrite (to_uint64_small abs) by lia.
    destruct (stopRequested env k) eqn:Hstop.
    + cbn. repeat split; try discriminate.
      * exists []. rewrite app_nil_r. split; [reflexivity | cbn; lia].
      * lia.
      * intros Hnever. rewrite Hnever in Hstop. discriminate.
    + destruct (Z.eqb_spec (total - cs) 0) as [Hz | Hnz].
      * cbn. repeat split; try discriminate; try lia.
        exists [(abs, abs + cs)]. split; [reflexivity | cbn; lia].
      * match goal with
        | |- context [streamLoop env fuel' (S k) chunk (total - cs) (abs + cs) ?c2] =>
            specialize (IH (S k) chunk (total - cs) (abs + cs) c2)
        end.
        destruct IH as (Hrun & (evs & Hev & Hchain) & Hiff & Hnever);
          try lia; try reflexivity.
        repeat split; auto.
        -- exists ((abs, abs + cs) :: evs). split.
           ++ rewrite Hev. cbn. rewrite <- app_assoc. reflexivity.
           ++ cbn. repeat split; [lia | exact Hchain].
        -- intros H. apply Hiff in H. lia.
        -- intros H. apply Hiff. lia.
Qed.

(** One iteration in which the stop flag is seen: the loop ends there,
    nothing is emitted and [m_lastCapturedSample] stays. *)
Lemma streamLoop_stop_seen (fuel k : nat) (chunk total abs : Z)
    (c : Capture) :
  stopRequested env k = true ->
  let r := streamLoop env (S fuel) k chunk total abs c in
  r.1 = Canceled /\ emitted r.2 = emitted c /\
  m_lastCapturedSample r.2 = m_lastCapturedSample c.
Proof.
  intros Hstop. cbn [streamLoop]. cbv zeta.
  destruct (getSamplesP env k (Z.min chunk total)); rewrite Hstop;
    repeat split.
Qed.

(** Whatever the reads return and whenever the stop flag comes up, at
    any point of the loop: no range emitted ends beyond the last chunk
    copied, [m_lastCapturedSample] is the end of the last range emitted,
    and a loop left by the [break] of iteration [j] has emitted one
    range for each iteration before [j] and none for [j], though it made
    the read of [j]. *)
Lemma streamLoop_safe (fuel : nat) :
  forall (k : nat) (chunk total abs : Z) (c : Capture),
  0 <= chunk -> 0 <= total -> 0 <= abs -> abs + total < 2 ^ 64 ->
  completed c = abs ->
  m_lastCapturedSample c = lastEmittedEnd c ->
  let r := streamLoop env fuel k chunk total abs c in
  abs <= completed r.2 /\
  m_lastCapturedSample r.2 = lastEmittedEnd r.2 /\
  exists evs, emitted r.2 = emitted c ++ evs /\
    Forall (fun e => e.2 <= completed r.2) evs /\
    (r.1 = Canceled ->
     exists j, (k <= j)%nat /\ stopRequested env j = true /\
       (forall i, (k <= i < j)%nat -> stopRequested env i = false) /\
       length evs = (j - k)%nat /\
       (length (copied r.2) + length (debug r.2)
        = length (copied c) + length (debug c) + S (j - k))%nat).
Proof.
  induction fuel as [| fuel' IH];
    intros k chunk total abs c Hchunk Htotal Habs Hsum Hcompl Hlast.
  - cbn. repeat split; [lia | exact Hlast |].
    exists []. rewrite app_nil_r. repeat split; [constructor | discriminate].
  - cbn [streamLoop]. cbv zeta.
    set (cs := Z.min chunk total).
    assert (Hcs : 0 <= cs <= total) by (unfold cs; lia).
    destruct (getSamplesP env k cs) as [| what] eqn:Hread.
    + rewrite (to_uint64_small (abs + cs)) by lia.
      rewrite (to_uint64_small (total - cs)) by lia.
      replace (abs + cs - cs) with abs by lia.
      rewrite (to_uint64_small abs) by lia.
      set (c1 := invokeMethod (SetTriggerState Triggered) (memcpy abs cs c)).
      assert (Hc1 : completed c1 = abs + cs).
      { unfold completed, c1. cbn. rewrite last_snoc. reflexivity. }
      destruct (stopRequested env k) eqn:Hstop.
      * cbn [fst snd]. rewrite Hc1. repeat split; [lia | exact Hlast |].
        exists []. rewrite app_nil_r.
        repeat split; [constructor |]. intros _.
        exists k. repeat split; [lia | exact Hstop | lia | cbn; lia |].
        unfold c1. cbn. rewrite length_app. cbn. lia.
      * set (c2 := set_lastCapturedSample (abs + cs)
                     (invokeMethod Replot
                        (dataAvailable abs (abs + cs) c1))).
        assert (Hc2 : completed c2 = abs + cs) by exact Hc1.
        assert (Hl2 : m_lastCapturedSample c2 = lastEmittedEnd c2).
        { unfold lastEmittedEnd, c2. cbn. rewrite last_snoc. reflexivity. }
        destruct (Z.eqb_spec (total - cs) 0) as [Hz | Hnz].
        -- cbn [fst snd]. rewrite Hc2. repeat split; [lia | exact Hl2 |].
           exists [(abs, abs + cs)].
           repeat split; [| discriminate].
           constructor; [cbn; lia | constructor].
        -- destruct (IH (S k) chunk (total - cs) (abs + cs) c2)
             as (Hmono & Hlast' & evs & Hev & Hall & Hcancel);
             try lia; try assumption.
           repeat split; [lia | exact Hlast' |].
           exists ((abs, abs + cs) :: evs). repeat split.
           ++ rewrite Hev. unfold c2, c1. cbn. rewrite <- app_assoc.
              reflexivity.
           ++ constructor; [cbn; lia | exact Hall].
           ++ intros Hc. destruct (Hcancel Hc)
                as (j & Hj & Hsj & Hbefore & Hlen & Hreads).
              exists j. repeat split; [lia | exact Hsj | | cbn; lia |].
              ** intros i Hi. destruct (Nat.eq_dec i k) as [-> | Hne];
                   [exact Hstop | apply Hbefore; lia].
              ** rewrite Hreads. unfold c2, c1. cbn. rewrite length_app.
                 cbn. lia.
    + set (c1 := qDebug what c).
      assert (Hc1 : completed c1 = abs) by exact Hcompl.
      destruct (stopRequested env k) eqn:Hstop.
      * cbn [fst snd]. rewrite Hc1. repeat split; [lia | exact Hlast |].
        exists []. rewrite app_nil_r.
        repeat split; [constructor |]. intros _.
        exists k. repeat split; [lia | exact Hstop | lia | cbn; lia |].
        unfold c1. cbn. rewrite length_app. cbn. lia.
      * set (c2 := set_lastCapturedSample abs
                     (invokeMethod Replot
                        (dataAvailable (to_uint64 (abs - cs)) abs c1))).
        assert (Hc2 : completed c2 = abs) by exact Hc1.
        assert (Hl2 : m_lastCapturedSample c2 = lastEmittedEnd c2).
        { unfold lastEmittedEnd, c2. cbn. rewrite last_snoc. reflexivity. }
        destruct (Z.eqb_spec total 0) as [Hz | Hnz].
        -- cbn [fst snd]. rewrite Hc2. repeat split; [lia | exact Hl2 |].
           exists [(to_uint64 (abs - cs), abs)].
           repeat split; [| discriminate].
           constructor; [cbn; lia | constructor].
        -- destruct (IH (S k) chunk total abs c2)
             as (Hmono & Hlast' & evs & Hev & Hall & Hcancel);
             try lia; try assumption.
           repeat split; [lia | exact Hlast' |].
           exists ((to_uint64 (abs - cs), abs) :: evs). repeat split.
           ++ rewrite Hev. unfold c2, c1. cbn. rewrite <- app_assoc.
              reflexivity.
           ++ constructor; [cbn; lia | exact Hall].
           ++ intros Hc. destruct (Hcancel Hc)
                as (j & Hj & Hsj & Hbefore & Hlen & Hreads).
              exists j. repeat split; [lia | exact Hsj | | cbn; lia |].
              ** intros i Hi. destruct (Nat.eq_dec i k) as [-> | Hne];
                   [exact Hstop | apply Hbefore; lia].
              ** rewrite Hreads. unfold c2, c1. cbn. rewrite length_app.
                 cbn. lia.
Qed.

(** Once the stop flag is up at the check of iteration [j], the loop
    emits nothing for iteration [j] or any later one. *)
Lemma streamLoop_stop_bound (fuel : nat) (j : nat) :
  stopRequested env j = true ->
  forall (k : nat) (chunk total abs : Z) (c : Capture),
  (k <= j)%nat ->
  let r := streamLoop env fuel k chunk total abs c in
  (length (emitted r.2) <= length (emitted c) + (j - k))%nat.
Proof.
  intros Hj. induction fuel as [| fuel' IH]; intros k chunk total abs c Hk.
  - cbn. lia.
  - cbn [streamLoop]. cbv zeta.
    destruct (getSamplesP env k (Z.min chunk total)) as [| what];
      (destruct (stopRequested env k) eqn:Hstop; [cbn; lia |]);
      (assert (k <> j) by (intros ->; congruence));
      match goal with
      | |- context [if ?b then _ else _] => destruct b
      end.
    all: try (cbn; rewrite length_app; cbn; lia).
    all: match goal with
         | IH : context [streamLoop]
           |- context [streamLoop _ _ (S ?k) ?ch ?t ?a ?c2] =>
             specialize (IH (S k) ch t a c2);
             cbn in IH |- *; rewrite length_app in IH; cbn in IH; lia
         end.
Qed.

End Streaming.

(** ** The capture thread *)

(** The invocations queued at the end of the lambda change neither the
    state of the loop nor what was copied, emitted and logged. *)
Lemma captureThread_branch (env : Environment) (fuel : nat) (oneShot : bool)
    (bufferSize adj : Z) (c : Capture) :
  let r := captureBranch env fuel oneShot bufferSize adj c in
  let r' := captureThread env fuel oneShot bufferSize adj c in
  r'.1 = r.1 /\ m_buffer r'.2 = m_buffer r.2 /\ copied r'.2 = copied r.2 /\
  emitted r'.2 = emitted r.2 /\ debug r'.2 = debug r.2 /\
  m_lastCapturedSample r'.2 = m_lastCapturedSample r.2.
Proof.
  unfold captureThread.
  destruct (captureBranch env fuel oneShot bufferSize adj c) as [[| |] c1];
    cbn; repeat split.
Qed.


(** C8. In a streaming capture, whatever the reads return, whenever the
    stop flag comes up and however far the loop has run: no range emitted
    ends beyond the end of the last chunk copied;
    [m_lastCapturedSample] is the end of the last range emitted; and when
    the loop was left by the [break], the flag was seen up for the first
    time at some check [j], one range was emitted for each of the [j]
    iterations before and none for iteration [j], whose read was made;
    a flag up at check [j] leaves at most [j] ranges emitted. *)
Theorem cancel_emits_no_partial_chunk (env : Environment) (fuel : nat)
    (bufferSize adj : Z) :
  let r := captureThread env fuel false bufferSize adj Capture_start in
  Forall (fun e => e.2 <= completed r.2) (emitted r.2) /\
  m_lastCapturedSample r.2 = lastEmittedEnd r.2 /\
  (r.1 = Canceled ->
   exists j : nat,
     stopRequested env j = true /\
     (forall i, (i < j)%nat -> stopRequested env i = false) /\
     length (emitted r.2) = j /\
     (length (copied r.2) + length (debug r.2))%nat = S j) /\
  (forall j : nat,
     stopRequested env j = true -> (length (emitted r.2) <= j)%nat).
Proof.
  intros r.
  destruct (captureThread_branch env fuel false bufferSize adj Capture_start)
    as (He & _ & Hco & Hem & Hde & Hl).
  fold r in He, Hco, Hem, Hde, Hl.
  unfold completed, lastEmittedEnd. rewrite He, Hco, Hem, Hde, Hl.
  clear He Hco Hem Hde Hl r.
  unfold captureBranch.
  pose proof (to_uint64_range adj) as Hr. pose proof (chunk_size_pos adj).
  match goal with
  | |- context [streamLoop env fuel 0 ?ch ?tot 0 ?c] =>
      destruct (streamLoop_safe env fuel 0%nat ch tot 0 c)
        as (_ & Hlast & evs & Hev & Hall & Hcancel);
      [lia | lia | lia | lia | reflexivity | reflexivity |];
      pose proof (fun j Hj =>
                    streamLoop_stop_bound env fuel j Hj 0%nat ch tot 0 c
                      (Nat.le_0_l j)) as Hbound;
      set (r := streamLoop env fuel 0 ch tot 0 c) in *
  end.
  cbn in Hev. unfold completed, lastEmittedEnd in *.
  repeat split.
  - rewrite Hev. exact Hall.
  - exact Hlast.
  - intros Hc. destruct (Hcancel Hc) as (j & _ & Hsj & Hbefore & Hlen & Hreads).
    exists j. repeat split.
    + exact Hsj.
    + intros i Hi. apply Hbefore. lia.
    + rewrite Hev, Hlen. lia.
    + rewrite Hreads. cbn. lia.
  - intros j Hj. specialize (Hbound j Hj). cbn in Hbound. lia.
Qed.

(** A capture of 20 samples in chunks of 1, stopped at the second check:
    two chunks were copied, one range was emitted. *)
Example streaming_stopped_at_second_check :
  let r := captureThread env_stop_at_1 20 false 20 20 Capture_start in
  r.1 = Canceled /\
  copied r.2 = [(0, 1); (1, 1)] /\
  emitted r.2 = [(0, 1)] /\
  m_lastCapturedSample r.2 = 1.
Proof. vm_compute. repeat split. Qed.

(** With every read rejected the loop does not advance, and emits at
    each turn a range that ends at 0 and starts at [0 - captureSize] as a
    [uint64_t]. *)
Example streaming_rejected_reads :
  let r := captureThread env_rejected 2 false 1000 1000 Capture_start in
  r.1 = Running /\
  copied r.2 = [] /\
  emitted r.2 = [(2 ^ 64 - 62, 0); (2 ^ 64 - 62, 0)] /\
  m_lastCapturedSample r.2 = 0.
Proof. vm_compute. repeat split. Qed.

(** C3 as stated fails: with a read the driver rejects, the oneshot
    branch still emits the range of the whole buffer. *)
Lemma oneshot_rejected_read_still_emits :
  getSamplesP env_rejected 0 1000 = InvalidArgument "size"%string /\
  emitted (captureThread env_rejected 1 true 1000 1000 Capture_start).2
    = [(0, 1000)] /\
  emitted (captureThread env_rejected 1 true 1000 1000 Capture_start).2
    <> [].
Proof. repeat split. discriminate. Qed.

(** C3, amended. In oneshot mode the thread makes one read and emits the
    range [0, bufferSize) once, whether the read succeeded or not. After a
    read rejected with an invalid argument it has logged the message,
    copied nothing and not posted [Triggered]; after a successful read it
    has copied [adj] words to the start of the buffer and posted
    [Triggered]. Either way it goes on to the invocations that end the
    lambda. *)
Theorem oneshot_emits_whatever_the_read (env : Environment) (fuel : nat)
    (bufferSize adj : Z) :
  let r := captureThread env fuel true bufferSize adj Capture_start in
  r.1 = Completed /\
  emitted r.2 = [(0, bufferSize)] /\
  match getSamplesP env 0 bufferSize with
  | Samples =>
    debug r.2 = [] /\ copied r.2 = [(0, adj)] /\
    queued r.2 = [SetTriggerState Waiting; SetTriggerState Triggered;
                  ToggleRunSingle false; Replot; SetTriggerState Stop]
  | InvalidArgument what =>
    debug r.2 = [what] /\ copied r.2 = [] /\
    queued r.2 = [SetTriggerState Waiting;
                  ToggleRunSingle false; Replot; SetTriggerState Stop]
  end.
Proof.
  unfold captureThread, captureBranch. cbn.
  destruct (getSamplesP env 0 bufferSize); cbn; repeat split.
Qed.

(** In oneshot mode a successful read of a size between 1 and 1G is
    copied inside the buffer exactly when the size is a multiple of 4. *)
Lemma oneshot_copy_in_bounds_iff (env : Environment) (fuel : nat)
    (bufferSize : Z) :
  1 <= bufferSize <= 2 ^ 30 ->
  getSamplesP env 0 bufferSize = Samples ->
  writes_in_bounds
    (captureThread env fuel true bufferSize (bufferSizeAdjusted bufferSize)
       Capture_start).2 = true
  <-> bufferSize mod 4 = 0.
Proof.
  intros Hb Hread. unfold captureThread, captureBranch. cbn.
  rewrite Hread. cbn. unfold copy_in_bounds. cbn.
  destruct (bufferSizeAdjusted_least bufferSize (2 ^ 30))
    as (Hm & Hle & Hleast & _); [lia | lia | reflexivity |].
  rewrite andb_true_r. rewrite Z.leb_le. split.
  - intros H. replace bufferSize with (bufferSizeAdjusted bufferSize) by lia.
    exact Hm.
  - intros H. apply Hleast; [exact H | lia].
Qed.

(** C5, the defect. Started with a buffer size of 1001, [startStop] gives
    the thread a buffer size of 1001 and an adjusted size of 1004; in
    oneshot mode the thread allocates 1001 words and its [memcpy] writes
    the words 0 to 1003. *)
Theorem oneshot_copy_overruns_buffer :
  m_captureThread (startStop true (analyzer_example 1001 true false))
    = Some (1001, 1004) /\
  let r := captureThread env_ok 1 true 1001 1004 Capture_start in
  m_buffer r.2 = Some 1001 /\
  copied r.2 = [(0, 1004)] /\
  writes_in_bounds r.2 = false.
Proof. vm_compute. repeat split. Qed.

(** ** Saving and restoring the trigger *)

Section TriggerState.

Local Abbreviation condition := M2K_TRIGGER_CONDITION_DIGITAL.

(** The loop of [saveTriggerState] from channel [length done] on:
    the conditions not yet visited are appended to the vector and
    replaced by [NO_TRIGGER_DIGITAL]. *)
Lemma foldl_saveChannel (rest : list condition) :
  forall (done saved : list condition) (t : M2kHardwareTrigger),
  digitalCondition t = done ++ rest ->
  foldl saveChannel (saved, t) (seq (length done) (length rest))
  = (saved ++ rest,
     mkTrigger (done ++ replicate (length rest) NO_TRIGGER_DIGITAL)
               (digitalExternalCondition t) (digitalStreamingFlag t)
               (sampleRateIn t)).
Proof.
  induction rest as [| x rest IH]; intros done saved t Ht.
  - cbn. rewrite <- Ht, app_nil_r. destruct t; reflexivity.
  - cbn [length seq foldl].
    assert (Hget : getDigitalCondition t (length done) = x).
    { unfold getDigitalCondition. rewrite Ht.
      rewrite list_lookup_middle by reflexivity. reflexivity. }
    unfold saveChannel at 2. cbn [fst snd]. rewrite Hget.
    specialize (IH (done ++ [NO_TRIGGER_DIGITAL]) (saved ++ [x])
                   (setDigitalCondition (length done) NO_TRIGGER_DIGITAL t)).
    rewrite length_app in IH. cbn [length] in IH.
    rewrite Nat.add_1_r in IH. rewrite IH.
    + cbn. rewrite <- !app_assoc. reflexivity.
    + cbn. rewrite Ht.
      replace (length done) with (length done + 0)%nat at 1 by lia.
      rewrite insert_app_r. cbn. rewrite <- app_assoc. reflexivity.
Qed.

(** The loop of [restoreTriggerState] from channel [length done] on,
    when the vector starts with one saved condition per channel: the
    current conditions are appended to the vector and the channels get
    the saved ones. *)
Lemma foldl_restoreChannel (rest : list condition) :
  forall (done current tl : list condition) (t : M2kHardwareTrigger),
  length current = length rest ->
  digitalCondition t = done ++ current ->
  foldl restoreChannel ((done ++ rest) ++ tl, t)
        (seq (length done) (length rest))
  = (((done ++ rest) ++ tl) ++ current,
     mkTrigger (done ++ rest) (digitalExternalCondition t)
               (digitalStreamingFlag t) (sampleRateIn t)).
Proof.
  induction rest as [| x rest IH]; intros done current tl t Hlen Ht.
  - destruct current; [| discriminate]. cbn. rewrite !app_nil_r in *.
    rewrite <- Ht. destruct t; reflexivity.
  - destruct current as [| y current]; [discriminate |].
    cbn [length seq foldl].
    assert (Hget : getDigitalCondition t (length done) = y).
    { unfold getDigitalCondition. rewrite Ht.
      rewrite list_lookup_middle by reflexivity. reflexivity. }
    unfold restoreChannel at 2. cbn [fst snd]. rewrite Hget.
    assert (Hsaved :
      (((done ++ x :: rest) ++ tl) ++ [y]) !! length done = Some x).
    { rewrite <- !app_assoc. cbn.
      rewrite list_lookup_middle by reflexivity. reflexivity. }
    rewrite Hsaved. cbn [default from_option Datatypes.id].
    specialize (IH (done ++ [x]) current (tl ++ [y])
                   (setDigitalCondition (length done) x t)).
    rewrite length_app in IH. cbn [length] in IH.
    rewrite Nat.add_1_r in IH.
    replace ((done ++ [x]) ++ rest) with (done ++ x :: rest) in IH
      by (rewrite <- app_assoc; reflexivity).
    replace (((done ++ x :: rest) ++ tl) ++ [y])
      with ((done ++ x :: rest) ++ tl ++ [y])
      by (rewrite !app_assoc; reflexivity).
    rewrite IH.
    + cbn. rewrite <- !app_assoc. reflexivity.
    + cbn in Hlen. lia.
    + cbn. rewrite Ht.
      replace (length done) with (length done + 0)%nat at 1 by lia.
      rewrite insert_app_r. cbn. rewrite <- app_assoc. reflexivity.
Qed.

(** [saveTriggerState] on a running analyzer: the conditions of the
    channels and the external one are appended to the vector, and all
    are set to [NO_TRIGGER_DIGITAL]. *)
Lemma saveTriggerState_running (la : LogicAnalyzer) :
  m_started la = true ->
  let la' := saveTriggerState la in
  m_triggerState la'
  = m_triggerState la ++ digitalCondition (trigger la)
      ++ [digitalExternalCondition (trigger la)] /\
  digitalCondition (trigger la')
  = replicate (m_nbChannels la) NO_TRIGGER_DIGITAL /\
  digitalExternalCondition (trigger la') = NO_TRIGGER_DIGITAL /\
  m_started la' = true.
Proof.
  intros Hs. unfold saveTriggerState. rewrite Hs. unfold m_nbChannels.
  pose proof (foldl_saveChannel (digitalCondition (trigger la)) []
                (m_triggerState la) (trigger la) eq_refl) as Hfold.
  cbn [length app] in Hfold. rewrite Hfold.
  cbn. rewrite <- app_assoc. repeat split. exact Hs.
Qed.

(** [restoreTriggerState] on a stopped analyzer whose vector holds a
    saved condition for each channel and then some more: the channels
    get back the saved conditions, the vector is emptied, and the
    external condition becomes the last entry of the vector after the
    loop has appended the current conditions of the channels. *)
Lemma restoreTriggerState_stopped (la : LogicAnalyzer)
    (saved tl : list condition) :
  m_started la = false ->
  m_triggerState la = saved ++ tl ->
  saved ++ tl <> [] ->
  length saved = m_nbChannels la ->
  let la' := restoreTriggerState la in
  digitalCondition (trigger la') = saved /\
  m_triggerState la' = [] /\
  digitalExternalCondition (trigger la')
  = default NO_TRIGGER_DIGITAL
      (last ((saved ++ tl) ++ digitalCondition (trigger la))).
Proof.
  intros Hs Hv Hne Hlen. unfold restoreTriggerState. rewrite Hs, Hv.
  destruct (Nat.eqb_spec (length (saved ++ tl)) 0) as [H0 | _].
  { destruct (saved ++ tl); [congruence | discriminate]. }
  cbn [negb andb]. unfold m_nbChannels in *. rewrite <- Hlen.
  pose proof (foldl_restoreChannel saved [] (digitalCondition (trigger la)) tl
                (trigger la)) as Hfold.
  cbn [length app] in Hfold. rewrite Hfold; [| lia | reflexivity].
  cbn. repeat split.
Qed.

End TriggerState.

Lemma last_replicate_S {A : Type} (n : nat) (x : A) (l : list A) :
  last (l ++ replicate (S n) x) = Some x.
Proof.
  induction n as [| n IH] in l |- *.
  - cbn. apply last_snoc.
  - change (replicate (S (S n)) x) with ([x] ++ replicate (S n) x).
    rewrite app_assoc. apply IH.
Qed.

(** One save while running, then the end of the capture thread: the
    vector held one entry per channel and one more, the channels get
    their conditions back and the vector is emptied; the external
    condition gets the last entry of the vector as the loop of
    [restoreTriggerState] left it, which is the condition the last
    channel had during the capture, unless there is no channel. *)
Lemma save_restore_round_trip (la : LogicAnalyzer) :
  m_started la = true ->
  m_triggerState la = [] ->
  let saved := saveTriggerState la in
  let restored := captureThread_finish saved in
  length (m_triggerState saved) = S (m_nbChannels la) /\
  digitalCondition (trigger restored) = digitalCondition (trigger la) /\
  m_triggerState restored = [] /\
  digitalExternalCondition (trigger restored)
  = match digitalCondition (trigger la) with
    | [] => digitalExternalCondition (trigger la)
    | _ :: _ => NO_TRIGGER_DIGITAL
    end.
Proof.
  intros Hs Hv saved restored.
  destruct (saveTriggerState_running la Hs) as (Hvec & Hcond & Hext & _).
  fold saved in Hvec, Hcond, Hext. rewrite Hv in Hvec. cbn in Hvec.
  split.
  { rewrite Hvec, length_app. unfold m_nbChannels. cbn. lia. }
  destruct (restoreTriggerState_stopped
              (set_run false (m_stopRequested saved) saved)
              (digitalCondition (trigger la))
              [digitalExternalCondition (trigger la)])
    as (Hc & Hv' & He).
  - reflexivity.
  - exact Hvec.
  - intros H. apply app_eq_nil in H. destruct H; discriminate.
  - unfold m_nbChannels. cbn. rewrite Hcond, length_replicate. reflexivity.
  - fold (captureThread_finish saved) in Hc, Hv', He. fold restored in Hc, Hv', He.
    repeat split; [exact Hc | exact Hv' |].
    rewrite He. cbn [trigger set_run]. rewrite Hcond. unfold m_nbChannels.
    destruct (digitalCondition (trigger la)) as [| x l].
    + reflexivity.
    + cbn [length]. rewrite last_replicate_S. reflexivity.
Qed.

(** C2, the defect. A front-end with two channels (rising edge, low
    level) and a falling edge as external condition: started in auto
    mode, the timer saves three entries; at the end of the capture thread
    the two channels have their conditions back and the vector is empty,
    but the external condition is left without trigger. *)
Theorem external_condition_not_restored :
  let la := startStop true (analyzer_example 1000 true true) in
  let saved := timer_timeout la in
  let restored := captureThread_finish saved in
  digitalCondition (trigger la) = [RISING_EDGE_DIGITAL; LOW_LEVEL_DIGITAL] /\
  digitalExternalCondition (trigger la) = FALLING_EDGE_DIGITAL /\
  m_triggerState saved
  = [RISING_EDGE_DIGITAL; LOW_LEVEL_DIGITAL; FALLING_EDGE_DIGITAL] /\
  digitalCondition (trigger restored)
  = [RISING_EDGE_DIGITAL; LOW_LEVEL_DIGITAL] /\
  m_triggerState restored = [] /\
  digitalExternalCondition (trigger restored) = NO_TRIGGER_DIGITAL.
Proof. vm_compute. repeat split. Qed.

(** C4 as stated fails: [startStop(true)] on a stopped analyzer neither
    saves the conditions nor sets them to no trigger. *)
Lemma start_does_not_save_the_trigger :
  let la := startStop true (analyzer_example 1000 true false) in
  m_started la = true /\
  m_triggerState la = [] /\
  digitalCondition (trigger la) = [RISING_EDGE_DIGITAL; LOW_LEVEL_DIGITAL] /\
  digitalExternalCondition (trigger la) = FALLING_EDGE_DIGITAL /\
  m_timer la = None.
Proof. vm_compute. repeat split. Qed.

(** C4, amended. [startStop(true)] on a stopped analyzer marks it
    started and leaves the conditions of the channels, the external
    condition and the saved vector as they were; in auto mode it sets the
    plot to [Auto] and starts the timer, otherwise it leaves the timer
    alone. The conditions are saved and set to no trigger when the timer
    fires during the capture. The first thing the capture thread posts,
    before any read, is the state [Waiting]. *)
Theorem start_leaves_trigger_to_the_timer (la : LogicAnalyzer) :
  m_started la = false ->
  let la' := startStop true la in
  m_started la' = true /\
  m_triggerState la' = m_triggerState la /\
  digitalCondition (trigger la') = digitalCondition (trigger la) /\
  digitalExternalCondition (trigger la')
  = digitalExternalCondition (trigger la) /\
  (if m_autoMode la
   then is_Some (m_timer la') /\ plotTriggerState la' = Auto
   else m_timer la' = m_timer la /\ plotTriggerState la' = plotTriggerState la) /\
  (let la'' := timer_timeout la' in
   m_triggerState la''
   = m_triggerState la ++ digitalCondition (trigger la)
       ++ [digitalExternalCondition (trigger la)] /\
   digitalCondition (trigger la'')
   = replicate (m_nbChannels la) NO_TRIGGER_DIGITAL /\
   digitalExternalCondition (trigger la'') = NO_TRIGGER_DIGITAL) /\
  (forall env fuel oneShot bufferSize adj,
     head (queued (captureThread env fuel oneShot bufferSize adj
                     Capture_start).2)
     = Some (SetTriggerState Waiting)).
Proof.
  intros Hs la'.
  assert (Hfields :
    m_started la' = true /\ m_triggerState la' = m_triggerState la /\
    digitalCondition (trigger la') = digitalCondition (trigger la) /\
    digitalExternalCondition (trigger la')
    = digitalExternalCondition (trigger la)).
  { unfold la', startStop. rewrite Hs. cbn.
    destruct (m_autoMode la); cbn; repeat split. }
  destruct Hfields as (H1 & H2 & H3 & H4).
  repeat split; try assumption.
  - unfold la', startStop. rewrite Hs. cbn.
    destruct (m_autoMode la); cbn; split; eauto.
  - unfold timer_timeout.
    destruct (saveTriggerState_running
                (set_plot (plotTriggerState la') None la') H1) as (Hv & _).
    rewrite Hv. cbn. rewrite H2, H3, H4. reflexivity.
  - unfold timer_timeout.
    destruct (saveTriggerState_running
                (set_plot (plotTriggerState la') None la') H1)
      as (_ & Hc & _).
    rewrite Hc. unfold m_nbChannels. cbn. rewrite H3. reflexivity.
  - unfold timer_timeout.
    destruct (saveTriggerState_running
                (set_plot (plotTriggerState la') None la') H1)
      as (_ & _ & He & _).
    exact He.
  - intros env fuel oneShot bufferSize adj.
    unfold captureThread, captureBranch. destruct oneShot.
    + cbn. destruct (getSamplesP env 0 bufferSize); reflexivity.
    + cbn [fst snd].
      assert (Hq : forall f k ch t a c,
                 exists more, queued (streamLoop env f k ch t a c).2
                              = queued c ++ more).
      { induction f as [| f IH]; intros k ch t a c.
        - exists []. cbn. rewrite app_nil_r. reflexivity.
        - cbn [streamLoop]. cbv zeta.
          destruct (getSamplesP env k (Z.min ch t)) as [| what];
            destruct (stopRequested env k).
          all: try (eexists; cbn; reflexivity).
          all: try (exists []; cbn; rewrite app_nil_r; reflexivity).
          all: match goal with
               | |- context [if ?b then _ else _] => destruct b
               end.
          all: try (eexists; cbn; rewrite <- ?app_assoc; reflexivity).
          all: match goal with
               | |- context [streamLoop _ _ (S ?k) ?ch ?t ?a ?c2] =>
                   destruct (IH (S k) ch t a c2) as [more Hm];
                   rewrite Hm; eexists; cbn; rewrite <- ?app_assoc;
                   reflexivity
               end. }
      match goal with
      | |- context [streamLoop env fuel 0 ?ch ?t 0 ?c] =>
          destruct (Hq fuel 0%nat ch t 0 c) as [more Hm];
          set (r := streamLoop env fuel 0 ch t 0 c) in *
      end.
      cbn in Hm. destruct r as [[| |] c']; cbn in *; rewrite Hm; reflexivity.
Qed.

(** ** The auto-trigger timer *)

(** What [double_to_int] gives is an [int] with the sign of the
    [double], whose magnitude is the integer part of [m * 2^e]: the
    fractional part is dropped. *)
Lemma double_to_int_truncates (d : float) (i : Z) :
  double_to_int d = Some i ->
  - 2 ^ 31 <= i <= 2 ^ 31 - 1 /\
  match Prim2SF d with
  | S754_zero _ => i = 0
  | S754_finite s m e =>
    (if s then i <= 0 else 0 <= i) /\
    Z.abs i * 2 ^ Z.max 0 (- e) <= Z.pos m * 2 ^ Z.max 0 e
    < (Z.abs i + 1) * 2 ^ Z.max 0 (- e)
  | _ => False
  end.
Proof.
  unfold double_to_int.
  destruct (Prim2SF d) as [s | s | | s m e]; try discriminate.
  - intros H. injection H as <-. lia.
  - cbv zeta.
    set (magnitude := Z.shiftl (Z.pos m) e).
    assert (Hmag : 0 <= magnitude
                   /\ magnitude * 2 ^ Z.max 0 (- e) <= Z.pos m * 2 ^ Z.max 0 e
                      < (magnitude + 1) * 2 ^ Z.max 0 (- e)).
    { unfold magnitude. destruct (Z.le_gt_cases 0 e) as [He | He].
      - rewrite Z.shiftl_mul_pow2 by exact He.
        rewrite (Z.max_l 0 (- e)), (Z.max_r 0 e) by lia.
        pose proof (Z.pow_pos_nonneg 2 e ltac:(lia) He). nia.
      - assert (Hsh : Z.shiftl (Z.pos m) e = Z.pos m / 2 ^ (- e)).
        { rewrite <- (Z.opp_involutive e) at 1.
          rewrite Z.shiftl_opp_r, Z.shiftr_div_pow2 by lia. reflexivity. }
        rewrite !Hsh.
        rewrite (Z.max_r 0 (- e)), (Z.max_l 0 e) by lia.
        pose proof (Z.pow_pos_nonneg 2 (- e) ltac:(lia) ltac:(lia)) as Hp.
        pose proof (Z.div_mod (Z.pos m) (2 ^ (- e)) ltac:(lia)) as Hdm.
        pose proof (Z.mod_pos_bound (Z.pos m) (2 ^ (- e)) Hp) as Hmb.
        split; [apply Z.div_pos; lia |]. change (2 ^ 0) with 1. nia. }
    destruct Hmag as [H0 Hb].
    destruct ((- 2 ^ 31 <=? (if s then - magnitude else magnitude))
              && ((if s then - magnitude else magnitude) <=? 2 ^ 31 - 1))
      eqn:Hrange; [| discriminate].
    intros H. injection H as <-.
    apply andb_true_iff in Hrange as [Hlo Hhi].
    apply Z.leb_le in Hlo, Hhi.
    split; [lia |].
    destruct s.
    + rewrite Z.abs_opp, Z.abs_eq by lia. split; [lia | exact Hb].
    + rewrite Z.abs_eq by lia. split; [lia | exact Hb].
Qed.

(** C9 as stated fails: a streaming capture of 2,000,000 samples at
    1 MHz lasts 2000 ms and is cut into 16 buffers; the timer is started
    with (2000 + 100) / 16 = 131.25 converted to [int], 131 ms, not with
    2000 / 16 + 100 = 225 ms. *)
Lemma auto_timer_divides_the_margin :
  let la := startStop true (analyzer_example 2000000 false true) in
  m_timer la = Some (Some 131) /\
  buffersCount 2000000 = 16 /\
  ((1.0 / 1000000 * to_double 2000000 * 1000.0 + 100) / to_double 16
   = 131.25)%float /\
  (1.0 / 1000000 * to_double 2000000 * 1000.0 / to_double 16 + 100
   = 225)%float /\
  double_to_int 225 = Some 225.
Proof. vm_compute. repeat split. Qed.

(** C9, amended. Started in auto mode, the timer gets the timeout kept
    in [m_timerTimeout], which is the duration of the adjusted buffer at
    the applied rate in milliseconds plus 100; in streaming mode that sum
    is divided by [buffersCount], the adjusted size divided by the chunk
    size; in oneshot mode it is taken as it is. The timer takes an [int]:
    the [double] is converted at the call, so the interval is the timeout
    without its fractional part, and there is none defined when an [int]
    cannot hold it. *)
Theorem auto_timer_timeout (la : LogicAnalyzer) :
  m_started la = false ->
  m_autoMode la = true ->
  let adj := bufferSizeAdjusted (to_uint64 (bufferSizeButton la)) in
  let rate := sampleRateIn (trigger la) (sampleRateButton la) in
  let full := (1.0 / rate * to_double adj * 1000.0 + 100)%float in
  let timeout :=
    if btnStreamOneShot la then full
    else (full / to_double (to_uint64 adj / chunk_size adj))%float in
  m_timerTimeout (startStop true la) = full /\
  m_timer (startStop true la) = Some (double_to_int timeout) /\
  (forall msec, m_timer (startStop true la) = Some (Some msec) ->
     - 2 ^ 31 <= msec <= 2 ^ 31 - 1 /\
     match Prim2SF timeout with
     | S754_zero _ => msec = 0
     | S754_finite s m e =>
       (if s then msec <= 0 else 0 <= msec) /\
       Z.abs msec * 2 ^ Z.max 0 (- e) <= Z.pos m * 2 ^ Z.max 0 e
       < (Z.abs msec + 1) * 2 ^ Z.max 0 (- e)
     | _ => False
     end).
Proof.
  intros Hs Ha adj rate full timeout.
  assert (Ht : m_timer (startStop true la) = Some (double_to_int timeout)).
  { unfold startStop. rewrite Hs. cbn. rewrite Ha. cbn.
    unfold QTimer_start, oneBufferTimeOut, timeout.
    destruct (btnStreamOneShot la); reflexivity. }
  split; [| split; [exact Ht |]].
  - unfold startStop. rewrite Hs. cbn. rewrite Ha. cbn. reflexivity.
  - intros msec Hm. rewrite Ht in Hm. injection Hm as Hm.
    apply double_to_int_truncates. exact Hm.
Qed.

(** At 1 Hz a oneshot capture of 4M samples has a timeout of
    4194304100 ms, more than an [int] holds: the interval the timer gets
    is not defined. *)
Lemma auto_timer_interval_undefined :
  let la :=
    mkLogicAnalyzer 1%float 4194304 true 1%float 4194304
      (timerTimeout 1%float 4194304) false false true None [] None
      trigger_example Stop Capture_start in
  m_timerTimeout (startStop true la) = 4194304100%float /\
  m_timer (startStop true la) = Some None.
Proof. vm_compute. repeat split. Qed.

(** [buffersCount] is not always the number of chunks: 8388612 samples
    are read in 16 chunks of [2^19] samples and one of 4. *)
Lemma buffersCount_8388612 :
  chunk_size 8388612 = 2 ^ 19 /\ buffersCount 8388612 = 16 /\
  length (emitted (captureThread env_ok 17 false 8388612 8388612
                     Capture_start).2) = 17%nat.
Proof. vm_compute. repeat split. Qed.

(** ** The order of decoder ids *)

Lemma uchar_range (c : ascii) : 0 <= uchar c < 256.
Proof.
  unfold uchar. pose proof (N_ascii_bounded c). lia.
Qed.

(** Swapping the arguments of [strcmp] changes the sign of the result. *)
Lemma strcmp_swap (a b : string) : strcmp b a = - strcmp a b.
Proof.
  induction a as [| c1 r1 IH] in b |- *; destruct b as [| c2 r2]; cbn;
    try lia.
  destruct (Z.eqb_spec (uchar c1) (uchar c2)) as [He | Hne].
  - rewrite <- He, Z.eqb_refl. destruct (uchar c1 =? 0); [lia | apply IH].
  - destruct (Z.eqb_spec (uchar c2) (uchar c1)); lia.
Qed.

Lemma id_le_total (a b : string) : id_le a b \/ id_le b a.
Proof. unfold id_le. rewrite (strcmp_swap a b). lia. Qed.

Lemma id_le_trans (a b c : string) : id_le a b -> id_le b c -> id_le a c.
Proof.
  unfold id_le.
  induction a as [| c1 r1 IH] in b, c |- *;
    destruct b as [| c2 r2]; destruct c as [| c3 r3]; cbn;
    try pose proof (uchar_range c1); try pose proof (uchar_range c2);
    try pose proof (uchar_range c3);
    repeat match goal with
           | |- context [?x =? ?y] => destruct (Z.eqb_spec x y)
           end;
    try lia.
  all: try (intros; exfalso; lia).
  apply IH.
Qed.

(** On strings without NUL, the order of [strcmp] is the lexicographic
    order of the bytes, which is what [String.compare] computes. *)
Lemma id_le_lexicographic (a b : string) :
  c_string a -> c_string b ->
  (id_le a b <-> String.compare a b <> Gt).
Proof.
  unfold id_le.
  induction a as [| c1 r1 IH] in b |- *; destruct b as [| c2 r2]; cbn;
    intros Ha Hb.
  - split; [discriminate | lia].
  - pose proof (uchar_range c2). split; [discriminate | lia].
  - pose proof (uchar_range c1). split; [lia | congruence].
  - destruct Ha as [Hc1 Ha], Hb as [_ Hb].
    unfold Ascii.compare. unfold uchar in *.
    rewrite <- N2Z.inj_compare.
    destruct (Z.eqb_spec (Z.of_N (N_of_ascii c1)) (Z.of_N (N_of_ascii c2)))
      as [He | Hne].
    + rewrite He in Hc1 |- *. rewrite Z.compare_refl.
      destruct (Z.eqb_spec (Z.of_N (N_of_ascii c2)) 0); [contradiction |].
      apply IH; assumption.
    + destruct (Z.compare_spec (Z.of_N (N_of_ascii c1))
                  (Z.of_N (N_of_ascii c2)));
        [contradiction | split; [discriminate | lia] |
         split; [lia | congruence]].
Qed.

(** ** GLib's list sort *)

Section Sort.

Context {A : Type} (compare_func : A -> A -> Z).

Let le (x y : A) : Prop := compare_func x y <= 0.

Hypothesis le_total : forall x y, le x y \/ le y x.
Hypothesis le_trans : forall x y z, le x y -> le y z -> le x z.

Lemma g_slist_sort_merge_Permutation (l1 l2 : list A) :
  Permutation (g_slist_sort_merge compare_func l1 l2) (l1 ++ l2).
Proof.
  funelim (g_slist_sort_merge compare_func l1 l2).
  - reflexivity.
  - rewrite app_nil_r. reflexivity.
  - cbn. apply perm_skip. assumption.
  - match goal with IH : Permutation _ _ |- _ => rewrite IH end.
    apply (Permutation_middle (x :: xs) ys y).
Qed.

Lemma g_slist_sort_merge_sorted (l1 l2 : list A) :
  StronglySorted le l1 -> StronglySorted le l2 ->
  StronglySorted le (g_slist_sort_merge compare_func l1 l2).
Proof.
  funelim (g_slist_sort_merge compare_func l1 l2); intros H1 H2.
  - assumption.
  - assumption.
  - apply StronglySorted_inv in H1 as [H1 Hx].
    assert (Hxy : le x y) by (unfold le; lia).
    constructor; [auto |].
    rewrite (g_slist_sort_merge_Permutation xs (y :: ys)).
    apply Forall_app. split; [exact Hx |].
    constructor; [exact Hxy |].
    apply StronglySorted_inv in H2 as [_ Hy].
    eapply Forall_impl; [exact Hy |]. intros z Hz. cbn in Hz.
    eapply le_trans; eassumption.
  - apply StronglySorted_inv in H2 as [H2 Hy].
    assert (Hyx : le y x) by (destruct (le_total x y); [unfold le in *; lia | assumption]).
    constructor; [auto |].
    rewrite (g_slist_sort_merge_Permutation (x :: xs) ys).
    apply Forall_app. split; [| exact Hy].
    constructor; [exact Hyx |].
    apply StronglySorted_inv in H1 as [_ Hx].
    eapply Forall_impl; [exact Hx |]. intros z Hz. cbn in Hz.
    eapply le_trans; eassumption.
Qed.

Lemma g_slist_sort_Permutation (l : list A) :
  Permutation (g_slist_sort compare_func l) l.
Proof.
  funelim (g_slist_sort compare_func l).
  - reflexivity.
  - reflexivity.
  - rewrite g_slist_sort_merge_Permutation.
    repeat match goal with IH : Permutation _ _ |- _ => rewrite IH; clear IH end.
    rewrite take_drop. reflexivity.
Qed.

Lemma g_slist_sort_sorted (l : list A) :
  StronglySorted le (g_slist_sort compare_func l).
Proof.
  funelim (g_slist_sort compare_func l).
  - constructor.
  - constructor; constructor.
  - apply g_slist_sort_merge_sorted; assumption.
Qed.

End Sort.

(** ** The decoders offered for stacking *)

Lemma StronglySorted_filter_list {A : Type} (R : A -> A -> Prop)
    (f : A -> bool) (l : list A) :
  StronglySorted R l -> StronglySorted R (List.filter f l).
Proof.
  induction 1 as [| x l Hs IH Hall]; cbn; [constructor |].
  destruct (f x); [| exact IH].
  constructor; [exact IH |].
  rewrite List.Forall_forall in Hall |- *.
  intros y Hy. apply List.filter_In in Hy. apply Hall. tauto.
Qed.

Lemma StronglySorted_map_id (l : list srd_decoder) :
  StronglySorted (fun a b => sort_pds a b <= 0) l ->
  StronglySorted id_le (map id l).
Proof.
  induction 1 as [| x l Hs IH Hall]; cbn; constructor; [exact IH |].
  rewrite List.Forall_forall in Hall |- *.
  intros i Hi. apply List.in_map_iff in Hi as (d & <- & Hd).
  apply Hall. exact Hd.
Qed.

(** The list of [stackable]: the ids of the decoders of the catalog that
    take what the top of the stack gives, each as often as in the catalog,
    in the order of [strcmp]. *)
Lemma stackable_spec (srd_decoder_list : list srd_decoder)
    (top : srd_decoder) :
  let offered := stackable srd_decoder_list top in
  Permutation offered
    (map id (List.filter
               (fun dec => String.eqb (inputKind dec) (outputKind top))
               srd_decoder_list)) /\
  (forall i, In i offered <->
     exists dec, In dec srd_decoder_list /\ id dec = i /\
                 inputKind dec = outputKind top) /\
  StronglySorted id_le offered.
Proof.
  intros offered. unfold offered, stackable.
  fold (outputKind top).
  change (fun dec => String.eqb (lastKind (inputs dec)) (outputKind top))
    with (fun dec => String.eqb (inputKind dec) (outputKind top)).
  set (keep := fun dec => String.eqb (inputKind dec) (outputKind top)).
  pose proof (g_slist_sort_Permutation sort_pds srd_decoder_list) as Hperm.
  assert (Hfilter : Permutation
            (List.filter keep (g_slist_sort sort_pds srd_decoder_list))
            (List.filter keep srd_decoder_list)).
  { clear -Hperm. induction Hperm as [| x l l' _ IH | x y l | l l' l'' _ IH1 _ IH2];
      cbn.
    - constructor.
    - destruct (keep x); [apply perm_skip |]; exact IH.
    - destruct (keep x), (keep y); try reflexivity. apply perm_swap.
    - etransitivity; eassumption. }
  repeat split.
  - apply Permutation_map. exact Hfilter.
  - intros Hi. apply List.in_map_iff in Hi as (d & Hid & Hd).
    apply List.filter_In in Hd as [Hd Hk].
    exists d. repeat split; [| exact Hid | apply String.eqb_eq; exact Hk].
    eapply Permutation_in; [exact Hperm | exact Hd].
  - intros (d & Hd & Hid & Hk). apply List.in_map_iff. exists d.
    split; [exact Hid |]. apply List.filter_In. split.
    + eapply Permutation_in; [symmetry; exact Hperm | exact Hd].
    + apply String.eqb_eq. exact Hk.
  - apply StronglySorted_map_id. apply StronglySorted_filter_list.
    apply g_slist_sort_sorted.
    + intros x y. apply id_le_total.
    + intros x y z. apply id_le_trans.
Qed.

(** A list of C strings in the order of [strcmp] is in lexicographic
    order. *)
Lemma StronglySorted_lexicographic (l : list string) :
  List.Forall c_string l ->
  StronglySorted id_le l ->
  StronglySorted (fun a b => String.compare a b <> Gt) l.
Proof.
  intros Hc Hs. induction Hs as [| x l Hs IH Hall]; constructor.
  - apply IH. apply List.Forall_inv_tail in Hc. exact Hc.
  - rewrite List.Forall_forall in Hall, Hc |- *. intros y Hy.
    apply id_le_lexicographic;
      [apply Hc; left; reflexivity | apply Hc; right; exact Hy |].
    apply Hall. exact Hy.
Qed.

(** C10. When the selected curve is an annotation curve whose decoder
    stack has the top [top], the combo box holds its first item and then
    the ids of exactly the decoders of the catalog whose input kind is the
    output kind of [top], each as often as the catalog has it, in the
    lexicographic order of the ids. The kind is the last entry of the
    list of inputs or of outputs, the empty string for an empty list; when
    [top] declares an output, the decoders offered are those whose last
    declared input is that output. The ids are C strings. *)
Theorem stack_decoder_list_compatible_and_sorted
    (srd_decoder_list : list srd_decoder) (nbChannels : nat)
    (m_selectedChannel : Z) (m_plotCurves : list GenericLogicPlotCurve)
    (ui : StackDecoderUi) (stack : list srd_decoder) (top : srd_decoder) :
  Z.of_nat nbChannels <= m_selectedChannel ->
  m_plotCurves !! Z.to_nat m_selectedChannel = Some (AnnotationCurve stack) ->
  last stack = Some top ->
  List.Forall (fun dec => c_string (id dec)) srd_decoder_list ->
  exists offered,
    stackDecoderComboBox
      (updateStackDecoderButton srd_decoder_list nbChannels
         m_selectedChannel m_plotCurves ui)
    = String "-" EmptyString :: offered /\
    Permutation offered
      (map id (List.filter
                 (fun dec =>
                    String.eqb (default EmptyString (last (inputs dec)))
                               (default EmptyString (last (outputs top))))
                 srd_decoder_list)) /\
    (forall i, In i offered <->
       exists dec, In dec srd_decoder_list /\ id dec = i /\
                   default EmptyString (last (inputs dec))
                   = default EmptyString (last (outputs top))) /\
    (forall kind, last (outputs top) = Some kind -> kind <> EmptyString ->
       forall i, In i offered <->
         exists dec, In dec srd_decoder_list /\ id dec = i /\
                     last (inputs dec) = Some kind) /\
    StronglySorted (fun a b => String.compare a b <> Gt) offered.
Proof.
  intros Hsel Hcurve Htop Hids.
  exists (stackable srd_decoder_list top). split.
  { unfold updateStackDecoderButton.
    destruct (Z.ltb_spec m_selectedChannel (Z.of_nat nbChannels)); [lia |].
    apply lookup_lt_Some in Hcurve as Hlt.
    destruct (Z.gtb_spec m_selectedChannel
                (Z.of_nat (length m_plotCurves) - 1)); [lia |].
    rewrite Hcurve, Htop. reflexivity. }
  destruct (stackable_spec srd_decoder_list top) as (Hperm & Hiff & Hsorted).
  unfold inputKind, outputKind, lastKind in Hperm, Hiff.
  split; [exact Hperm |]. split; [exact Hiff |]. split.
  - intros kind Hkind Hne i. rewrite Hiff, Hkind. cbn [default from_option].
    split; intros (dec & Hd & Hid & Hk); exists dec;
      (split; [exact Hd |]; split; [exact Hid |]).
    + destruct (last (inputs dec)) as [k |]; cbn in Hk; congruence.
    + rewrite Hk. reflexivity.
  - apply StronglySorted_lexicographic; [| exact Hsorted].
    rewrite List.Forall_forall in Hids |- *. intros i Hi.
    apply Hiff in Hi as (dec & Hd & <- & _). apply Hids. exact Hd.
Qed.

(** * The theorems at example inputs *)

(** A request of 1001 samples in oneshot mode is applied as 1004. *)
Lemma applied_buffer_size_witness :
  let la := analyzer_example 1001 true false in
  m_started la = false /\
  0 <= bufferSizeButton la <= maxBufferSize (btnStreamOneShot la) /\
  bufferSizeButton (startStop true la) = 1004 /\
  bufferSizeButton (startStop true la) <= 4 * 1024 * 1024.
Proof.
  assert (Hr : 0 <= 1001 <= maxBufferSize true)
    by (unfold maxBufferSize, MAX_BUFFER_SIZE_ONESHOT; lia).
  destruct (applied_buffer_size_least_multiple_of_4
              (analyzer_example 1001 true false) eq_refl Hr)
    as (Heq & _ & _ & _ & Hmax).
  split; [reflexivity |]. split; [exact Hr |]. split.
  - rewrite Heq. reflexivity.
  - exact Hmax.
Defined.


(** Starting the example analyzer in auto mode leaves its trigger as it
    was. *)
Lemma start_leaves_trigger_to_the_timer_witness :
  let la := analyzer_example 1000 true true in
  m_started la = false /\
  m_triggerState (startStop true la) = [] /\
  digitalCondition (trigger (startStop true la))
  = [RISING_EDGE_DIGITAL; LOW_LEVEL_DIGITAL] /\
  digitalExternalCondition (trigger (startStop true la))
  = FALLING_EDGE_DIGITAL.
Proof.
  destruct (start_leaves_trigger_to_the_timer
              (analyzer_example 1000 true true) eq_refl)
    as (_ & Hv & Hc & He & _).
  split; [reflexivity |].
  split; [rewrite Hv; reflexivity |].
  split; [rewrite Hc | rewrite He]; reflexivity.
Defined.

(** 2,000,000 samples at 1 MHz in streaming mode: 2100 ms over 16 is
    131.25, and the timer gets 131. *)
Lemma auto_timer_timeout_witness :
  let la := analyzer_example 2000000 false true in
  m_started la = false /\ m_autoMode la = true /\
  m_timer (startStop true la) = Some (Some 131).
Proof.
  destruct (auto_timer_timeout (analyzer_example 2000000 false true)
              eq_refl eq_refl) as (_ & Ht & _).
  split; [reflexivity |]. split; [reflexivity |].
  rewrite Ht. vm_compute. reflexivity.
Defined.

(** The decoders offered on top of the UART decoder of the example
    curves. *)
Lemma stack_decoder_list_witness :
  Z.of_nat 2 <= 2 /\
  curves_example !! Z.to_nat 2 = Some (AnnotationCurve [uart_example]) /\
  List.Forall (fun dec => c_string (id dec)) catalog_example /\
  stackDecoderComboBox
    (updateStackDecoderButton catalog_example 2 2 curves_example
       (mkStackDecoderUi [] false))
  = ["-"; "midi"; "modbus"]%string /\
  exists offered,
    stackDecoderComboBox
      (updateStackDecoderButton catalog_example 2 2 curves_example
         (mkStackDecoderUi [] false))
    = String "-" EmptyString :: offered /\
    (forall i, In i offered <->
       exists dec, In dec catalog_example /\ id dec = i /\
                   last (inputs dec) = Some "uart"%string) /\
    StronglySorted (fun a b => String.compare a b <> Gt) offered.
Proof.
  assert (Hsel : Z.of_nat 2 <= 2) by lia.
  assert (Hids : List.Forall (fun dec => c_string (id dec)) catalog_example).
  { repeat (apply List.Forall_cons; [cbn; repeat split; discriminate |]).
    apply List.Forall_nil. }
  destruct (stack_decoder_list_compatible_and_sorted catalog_example 2 2
              curves_example (mkStackDecoderUi [] false) [uart_example]
              uart_example Hsel eq_refl eq_refl Hids)
    as (offered & Hbox & _ & _ & Hkind & Hsorted).
  split; [exact Hsel |]. split; [reflexivity |]. split; [exact Hids |].
  split; [reflexivity |].
  exists offered. split; [exact Hbox |]. split; [| exact Hsorted].
  apply (Hkind "uart"%string); [reflexivity | discriminate].
Defined.

(** * Further properties *)

(** ** The streaming loop: what is copied, how long the ranges are *)

Section StreamingMore.

Variable env : Environment.

(** Whatever the reads return: the loop only adds to the copies, each
    copy it adds has at most [chunk] words and lies between [absIndex]
    and [absIndex + totalSamples], and the buffer is not reallocated. *)
Lemma streamLoop_copies (fuel : nat) :
  forall (k : nat) (chunk total abs : Z) (c : Capture),
  0 <= chunk -> 0 <= total -> 0 <= abs -> abs + total < 2 ^ 64 ->
  let r := streamLoop env fuel k chunk total abs c in
  m_buffer r.2 = m_buffer c /\
  exists cps, copied r.2 = copied c ++ cps /\
    Forall (fun w => abs <= w.1 /\ 0 <= w.2 <= chunk /\
                     w.1 + w.2 <= abs + total) cps.
Proof.
  induction fuel as [| fuel' IH]; intros k chunk total abs c Hch Ht Ha Hs.
  - cbn. split; [reflexivity |]. exists []. rewrite app_nil_r.
    split; [reflexivity | constructor].
  - cbn [streamLoop]. cbv zeta.
    set (cs := Z.min chunk total).
    assert (Hcs : 0 <= cs <= total /\ cs <= chunk) by (unfold cs; lia).
    destruct (getSamplesP env k cs) as [| what].
    + rewrite (to_uint64_small (abs + cs)) by lia.
      rewrite (to_uint64_small (total - cs)) by lia.
      destruct (stopRequested env k).
      * cbn. split; [reflexivity |]. exists [(abs, cs)].
        split; [reflexivity |]. constructor; [cbn; lia | constructor].
      * destruct (total - cs =? 0).
        -- cbn. split; [reflexivity |]. exists [(abs, cs)].
           split; [reflexivity |]. constructor; [cbn; lia | constructor].
        -- match goal with
           | |- context [streamLoop env fuel' (S k) chunk ?t ?a ?c2] =>
               destruct (IH (S k) chunk t a c2) as (Hb & cps & Hc & Hall);
               try lia
           end.
           split; [rewrite Hb; reflexivity |].
           exists ((abs, cs) :: cps). split.
           ++ rewrite Hc. cbn. rewrite <- app_assoc. reflexivity.
           ++ constructor; [cbn; lia |].
              eapply Forall_impl; [exact Hall |]. cbn. intros w Hw. lia.
    + destruct (stopRequested env k).
      * cbn. split; [reflexivity |]. exists []. rewrite app_nil_r.
        split; [reflexivity | constructor].
      * destruct (total =? 0).
        -- cbn. split; [reflexivity |]. exists []. rewrite app_nil_r.
           split; [reflexivity | constructor].
        -- match goal with
           | |- context [streamLoop env fuel' (S k) chunk ?t ?a ?c2] =>
               destruct (IH (S k) chunk t a c2) as (Hb & cps & Hc & Hall);
               try lia
           end.
           split; [rewrite Hb; reflexivity |].
           exists cps. split; [rewrite Hc; reflexivity | exact Hall].
Qed.

(** With every read successful: each range the loop emits has at most
    [chunk] samples, and a range after which the loop went on has exactly
    [chunk]. *)
Lemma streamLoop_range_lengths (fuel : nat) :
  (forall j n, getSamplesP env j n = Samples) ->
  forall (k : nat) (chunk total abs : Z) (c : Capture),
  0 < chunk -> 0 < total -> 0 <= abs -> abs + total < 2 ^ 64 ->
  let r := streamLoop env fuel k chunk total abs c in
  exists evs, emitted r.2 = emitted c ++ evs /\
    Forall (fun e => 0 < e.2 - e.1 <= chunk) evs /\
    (forall i e, evs !! i = Some e -> (S i < length evs)%nat ->
                 e.2 - e.1 = chunk).
Proof.
  intros Hok. induction fuel as [| fuel' IH];
    intros k chunk total abs c Hch Ht Ha Hs.
  - cbn. exists []. rewrite app_nil_r.
    repeat split; [constructor | intros i e H; discriminate].
  - cbn [streamLoop]. rewrite Hok. cbv zeta.
    set (cs := Z.min chunk total).
    assert (Hcs : 0 < cs <= total /\ cs <= chunk) by (unfold cs; lia).
    rewrite (to_uint64_small (abs + cs)) by lia.
    rewrite (to_uint64_small (total - cs)) by lia.
    replace (abs + cs - cs) with abs by lia.
    rewrite (to_uint64_small abs) by lia.
    destruct (stopRequested env k).
    + cbn. exists []. rewrite app_nil_r.
      repeat split; [constructor | intros i e H; discriminate].
    + destruct (Z.eqb_spec (total - cs) 0) as [Hz | Hnz].
      * cbn. exists [(abs, abs + cs)]. repeat split.
        -- constructor; [cbn; lia | constructor].
        -- intros i e _ Hi. cbn in Hi. lia.
      * match goal with
        | |- context [streamLoop env fuel' (S k) chunk ?t ?a ?c2] =>
            destruct (IH (S k) chunk t a c2) as (evs & Hev & Hall & Hfull);
            try lia
        end.
        exists ((abs, abs + cs) :: evs). repeat split.
        -- rewrite Hev. cbn. rewrite <- app_assoc. reflexivity.
        -- constructor; [cbn; lia | exact Hall].
        -- intros [| i] e He Hi.
           ++ cbn in He. injection He as <-. cbn. unfold cs in *. lia.
           ++ cbn in He, Hi. apply (Hfull i e He). lia.
Qed.

End StreamingMore.

(** The copies of a streaming capture lie in the first [adj] words (as a
    [uint64_t]) of a buffer of [bufferSize] words. *)
Lemma captureThread_streaming_copies (env : Environment) (fuel : nat)
    (bufferSize adj : Z) :
  let r := captureThread env fuel false bufferSize adj Capture_start in
  m_buffer r.2 = Some bufferSize /\
  Forall (fun w => 0 <= w.1 /\ 0 <= w.2 /\ w.1 + w.2 <= to_uint64 adj)
         (copied r.2).
Proof.
  destruct (captureThread_branch env fuel false bufferSize adj Capture_start)
    as (_ & Hbuf & Hco & _).
  cbv zeta. rewrite Hbuf, Hco. clear Hbuf Hco.
  unfold captureBranch.
  pose proof (to_uint64_range adj). pose proof (chunk_size_pos adj).
  match goal with
  | |- context [streamLoop env fuel 0 ?ch ?tot 0 ?c] =>
      destruct (streamLoop_copies env fuel 0%nat ch tot 0 c)
        as (Hbuf & cps & Hc & Hall); try lia
  end.
  rewrite Hbuf, Hc. cbn. split; [reflexivity |].
  eapply Forall_impl; [exact Hall |]. cbn. intros w Hw. lia.
Qed.

(** X1. A streaming capture whose adjusted size is not above the size the
    buffer was allocated with never copies outside the buffer, whatever
    the reads return, whenever the stop flag comes up and however long it
    runs. *)
Theorem streaming_copies_stay_in_buffer (env : Environment) (fuel : nat)
    (bufferSize adj : Z) :
  0 <= adj <= bufferSize -> bufferSize < 2 ^ 64 ->
  writes_in_bounds
    (captureThread env fuel false bufferSize adj Capture_start).2 = true.
Proof.
  intros Hadj Hb.
  destruct (captureThread_streaming_copies env fuel bufferSize adj)
    as (Hbuf & Hall).
  unfold writes_in_bounds. rewrite Hbuf.
  rewrite (to_uint64_small adj) in Hall by lia.
  apply forallb_forall. intros w Hw.
  rewrite List.Forall_forall in Hall. specialize (Hall w Hw).
  unfold copy_in_bounds. apply andb_true_iff.
  split; apply Z.leb_le; lia.
Qed.

(** X3. A streaming capture that runs to its end, every read successful
    and the stop flag never up, has copied inside its buffer exactly when
    the adjusted size is not above the size the buffer was allocated
    with; for a size the control accepts that is when the size is a
    multiple of 4. *)
Theorem streaming_copy_in_bounds_iff (env : Environment) (bufferSize : Z) :
  1 <= bufferSize <= 2 ^ 30 ->
  (forall j n, getSamplesP env j n = Samples) ->
  (forall j, stopRequested env j = false) ->
  let adj := bufferSizeAdjusted bufferSize in
  writes_in_bounds
    (captureThread env (Z.to_nat adj) false bufferSize adj Capture_start).2
  = true
  <-> bufferSize mod 4 = 0.
Proof.
  intros Hb Hok Hnever adj.
  destruct (bufferSizeAdjusted_least bufferSize (2 ^ 30))
    as (Hm & Hle & Hleast & Hmax); [lia | lia | reflexivity |].
  fold adj in Hm, Hle, Hleast, Hmax.
  assert (Hiff : bufferSize mod 4 = 0 <-> adj <= bufferSize).
  { split; intros H.
    - apply Hleast; [exact H | lia].
    - replace bufferSize with adj by lia. exact Hm. }
  rewrite Hiff. clear Hiff.
  destruct (captureThread_streaming_copies env (Z.to_nat adj) bufferSize adj)
    as (Hbuf & Hall).
  destruct (captureThread_branch env (Z.to_nat adj) false bufferSize adj
              Capture_start) as (_ & _ & Hco & Hem & _ & Hl).
  set (r := captureThread env (Z.to_nat adj) false bufferSize adj
              Capture_start) in *.
  rewrite (to_uint64_small adj) in Hall by lia.
  unfold writes_in_bounds. rewrite Hbuf. split.
  - intros Hin.
    (* the last range emitted ends at [adj], within the last chunk copied *)
    assert (Hend : adj <= completed r.2).
    { unfold completed. rewrite Hco. unfold r in Hem, Hl.
      revert Hem Hl. unfold captureBranch.
      rewrite (to_uint64_small adj) by lia. intros Hem Hl.
      match goal with
      | |- context [streamLoop env ?f 0 ?ch adj 0 ?c] =>
          destruct (streamLoop_reads_ok env f Hok 0%nat ch adj 0 c)
            as (_ & _ & Hcompl & Hcomp);
          [apply chunk_size_pos | lia | lia | lia | lia | reflexivity |];
          destruct (streamLoop_safe env f 0%nat ch adj 0 c)
            as (Hmono & _);
          [pose proof (chunk_size_pos adj); lia | lia | lia | lia
           | reflexivity | reflexivity |];
          destruct (streamLoop_safe env f 0%nat ch adj 0 c)
            as (_ & Hlast & evs & Hev & Hall' & _);
          [pose proof (chunk_size_pos adj); lia | lia | lia | lia
           | reflexivity | reflexivity |];
          set (q := streamLoop env f 0 ch adj 0 c) in *
      end.
      specialize (Hcomp Hnever). apply Hcompl in Hcomp.
      rewrite Z.add_0_l in Hcomp. rewrite Hcomp in Hlast.
      unfold lastEmittedEnd in Hlast. cbn in Hev. rewrite Hev in Hlast.
      unfold completed in Hall'.
      destruct (last evs) as [e |] eqn:Hlastev; [| lia].
      apply last_Some in Hlastev as [evs' ->].
      apply Forall_app in Hall' as [_ Hall'].
      apply Forall_inv in Hall'. lia. }
    unfold completed in Hend.
    destruct (last (copied r.2)) as [w |] eqn:Hw; [| lia].
    apply last_Some in Hw as [cps Hw]. rewrite Hw in Hin.
    rewrite forallb_app in Hin. apply andb_true_iff in Hin as [_ Hin].
    cbn in Hin. rewrite andb_true_r in Hin. unfold copy_in_bounds in Hin.
    apply andb_true_iff in Hin as [_ Hin]. apply Z.leb_le in Hin. lia.
  - intros Hle'. apply forallb_forall. intros w Hw.
    rewrite List.Forall_forall in Hall. specialize (Hall w Hw).
    unfold copy_in_bounds. apply andb_true_iff.
    split; apply Z.leb_le; lia.
Qed.

(** X2. In a streaming capture of [adj] samples whose reads all succeed,
    every range emitted has at most [chunk_size adj] samples, hence at
    most [2^19], and every range but the last emitted has exactly
    [chunk_size adj]. *)
Theorem streaming_ranges_are_chunks (env : Environment) (fuel : nat)
    (bufferSize adj : Z) :
  0 < adj < 2 ^ 31 ->
  (forall j n, getSamplesP env j n = Samples) ->
  let r := captureThread env fuel false bufferSize adj Capture_start in
  Forall (fun e => 0 < e.2 - e.1 <= chunk_size adj /\ e.2 - e.1 <= 2 ^ 19)
         (emitted r.2) /\
  (forall i e, emitted r.2 !! i = Some e ->
               (S i < length (emitted r.2))%nat ->
               e.2 - e.1 = chunk_size adj).
Proof.
  intros Hadj Hok r.
  destruct (captureThread_branch env fuel false bufferSize adj Capture_start)
    as (_ & _ & _ & Hem & _).
  fold r in Hem. rewrite Hem. clear Hem r.
  unfold captureBranch. rewrite (to_uint64_small adj) by lia.
  pose proof (chunk_size_pos adj) as Hpos.
  assert (Hle : chunk_size adj <= 2 ^ 19)
    by (destruct (chunk_size_cases adj) as [[? ?] | [? ?]]; lia).
  match goal with
  | |- context [streamLoop env fuel 0 ?ch adj 0 ?c] =>
      destruct (streamLoop_range_lengths env fuel Hok 0%nat ch adj 0 c)
        as (evs & Hev & Hall & Hfull); try lia
  end.
  cbn in Hev. rewrite Hev. split.
  - eapply Forall_impl; [exact Hall |]. cbn. intros e He. lia.
  - exact Hfull.
Qed.

(** ** Starting and stopping *)

Lemma restoreTriggerState_fields (la : LogicAnalyzer) :
  m_started (restoreTriggerState la) = m_started la /\
  m_captureThread (restoreTriggerState la) = m_captureThread la /\
  m_stopRequested (restoreTriggerState la) = m_stopRequested la.
Proof.
  unfold restoreTriggerState.
  destruct (negb (m_started la) && negb (length (m_triggerState la) =? 0)%nat);
    repeat split.
Qed.

Lemma restoreTriggerState_nothing_saved (la : LogicAnalyzer) :
  m_triggerState la = [] -> restoreTriggerState la = la.
Proof.
  intros H. unfold restoreTriggerState. rewrite H. cbn.
  rewrite andb_false_r. reflexivity.
Qed.

Lemma restoreTriggerState_empties (la : LogicAnalyzer) :
  m_started la = false -> m_triggerState (restoreTriggerState la) = [].
Proof.
  intros Hs. unfold restoreTriggerState. rewrite Hs. cbn [negb andb].
  destruct (length (m_triggerState la) =? 0)%nat eqn:H; cbn.
  - apply Nat.eqb_eq in H. destruct (m_triggerState la); [reflexivity | discriminate].
  - reflexivity.
Qed.

Lemma startStop_started (start : bool) (la : LogicAnalyzer) :
  m_started (startStop start la) = start.
Proof.
  unfold startStop.
  destruct (Bool.eqb (m_started la) start) eqn:He.
  - apply Bool.eqb_prop in He. exact He.
  - destruct start.
    + cbn. destruct (m_autoMode la); reflexivity.
    + cbn [set_run m_captureThread].
      destruct (m_captureThread la); [| reflexivity].
      cbn [set_plot m_started].
      rewrite (proj1 (restoreTriggerState_fields _)). cbn [set_thread m_started].
      unfold captureThread_finish.
      rewrite (proj1 (restoreTriggerState_fields _)). reflexivity.
Qed.

(** X4. [startStop(start)] leaves [m_started] equal to [start], and a
    second call with the same argument changes nothing: starting a running
    analyzer, or stopping a stopped one, has no effect. *)
Theorem startStop_twice (start : bool) (la : LogicAnalyzer) :
  m_started (startStop start la) = start /\
  startStop start (startStop start la) = startStop start la.
Proof.
  split; [apply startStop_started |].
  pose proof (startStop_started start la) as H.
  unfold startStop at 1. rewrite H, Bool.eqb_reflx. reflexivity.
Qed.

(** X5. [restoreTriggerState] twice is [restoreTriggerState] once, and
    with nothing saved it changes nothing. *)
Theorem restoreTriggerState_idempotent (la : LogicAnalyzer) :
  restoreTriggerState (restoreTriggerState la) = restoreTriggerState la /\
  (m_triggerState la = [] -> restoreTriggerState la = la).
Proof.
  split; [| apply restoreTriggerState_nothing_saved].
  destruct (m_started la) eqn:Hs.
  - unfold restoreTriggerState at 2. rewrite Hs. cbn.
    unfold restoreTriggerState. rewrite Hs. reflexivity.
  - apply restoreTriggerState_nothing_saved.
    apply restoreTriggerState_empties. exact Hs.
Qed.

Lemma timer_timeout_saved_during_capture
    (original : list M2K_TRIGGER_CONDITION_DIGITAL) (la : LogicAnalyzer) :
  saved_during_capture original la ->
  saved_during_capture original (timer_timeout la).
Proof.
  intros (Hs & Hth & Hlen & Hcases). unfold timer_timeout.
  set (la1 := set_plot (plotTriggerState la) None la).
  destruct (saveTriggerState_running la1 Hs) as (Hv & Hc & _ & Hs').
  repeat split.
  - exact Hs'.
  - unfold saveTriggerState. change (m_started la1) with (m_started la).
    rewrite Hs. exact Hth.
  - rewrite Hc, length_replicate. exact Hlen.
  - right. rewrite Hv. change (m_triggerState la1) with (m_triggerState la).
    change (trigger la1) with (trigger la).
    destruct Hcases as [[Hnil Hcond] | (tl & Hne & Htl)].
    + exists [digitalExternalCondition (trigger la)].
      split; [discriminate |]. rewrite Hnil, Hcond. reflexivity.
    + exists (tl ++ digitalCondition (trigger la)
                 ++ [digitalExternalCondition (trigger la)]).
      split.
      * intros H. apply app_eq_nil in H. tauto.
      * rewrite Htl, <- app_assoc. reflexivity.
Qed.

(** X6. From start to stop the conditions of the channels survive: after
    [startStop(true)] on a stopped analyzer with nothing saved, any
    number of firings of the timer, and [startStop(false)], every channel
    has the condition it had before the start, the vector is empty and
    the plot shows [Stop]. *)
Theorem channel_conditions_survive_a_capture (la : LogicAnalyzer)
    (firings : nat) :
  m_started la = false ->
  m_triggerState la = [] ->
  let stopped :=
    startStop false (Nat.iter firings timer_timeout (startStop true la)) in
  digitalCondition (trigger stopped) = digitalCondition (trigger la) /\
  m_triggerState stopped = [] /\
  m_started stopped = false /\
  plotTriggerState stopped = Stop.
Proof.
  intros Hs Hv stopped.
  set (original := digitalCondition (trigger la)).
  assert (Hinv : saved_during_capture original
                   (Nat.iter firings timer_timeout (startStop true la))).
  { induction firings as [| n IH].
    - cbn [Nat.iter]. unfold saved_during_capture, startStop. rewrite Hs. cbn.
      destruct (m_autoMode la); cbn; rewrite Hv; repeat split; eauto.
    - cbn [Nat.iter]. apply timer_timeout_saved_during_capture. exact IH. }
  unfold stopped.
  set (running := Nat.iter firings timer_timeout (startStop true la)) in *.
  destruct Hinv as (Hrun & [th Hth] & Hlen & Hcases).
  unfold startStop. rewrite Hrun. cbn [Bool.eqb].
  cbn [set_run m_captureThread]. rewrite Hth.
  set (la1 := set_run false true (set_run false (m_stopRequested running) running)).
  assert (Hfin :
    digitalCondition (trigger (captureThread_finish la1)) = original /\
    m_triggerState (captureThread_finish la1) = []).
  { unfold captureThread_finish.
    set (la2 := set_run false (m_stopRequested la1) la1).
    destruct Hcases as [[Hnil Hcond] | (tl & Hne & Htl)].
    - rewrite restoreTriggerState_nothing_saved by exact Hnil.
      split; [exact Hcond | exact Hnil].
    - destruct (restoreTriggerState_stopped la2 original tl)
        as (Hc & Hv' & _).
      + reflexivity.
      + exact Htl.
      + intros H. apply app_eq_nil in H. tauto.
      + unfold m_nbChannels. cbn. symmetry. exact Hlen.
      + split; assumption. }
  destruct Hfin as [Hc Hv'].
  set (la3 := set_thread None (capture (captureThread_finish la1))
                (captureThread_finish la1)).
  assert (Hv3 : m_triggerState la3 = []) by exact Hv'.
  rewrite (restoreTriggerState_nothing_saved la3 Hv3).
  repeat split.
  - exact Hc.
  - exact Hv'.
  - cbn. unfold captureThread_finish.
    rewrite (proj1 (restoreTriggerState_fields _)). reflexivity.
Qed.

(** X7. Switching to auto mode during a capture starts the timer with
    the timeout [startStop(true)] would have given it in auto mode;
    switching the mode off, or switching it while stopped, leaves the
    timer alone. *)
Theorem btnTriggerMode_starts_the_same_timer (la : LogicAnalyzer) :
  m_started la = false ->
  0 <= bufferSizeButton la <= 2 ^ 30 ->
  m_timer (btnTriggerMode_toggled true (startStop true (set_autoMode false la)))
  = m_timer (startStop true (set_autoMode true la)) /\
  m_timer (btnTriggerMode_toggled false (startStop true la))
  = m_timer (startStop true la) /\
  (forall toggled, m_timer (btnTriggerMode_toggled toggled la) = m_timer la).
Proof.
  intros Hs Hb. split; [| split].
  - unfold startStop. cbn [set_autoMode m_started]. rewrite Hs. reflexivity.
  - unfold btnTriggerMode_toggled. cbn.
    destruct (m_started (startStop true la)); reflexivity.
  - intros toggled. unfold btnTriggerMode_toggled.
    cbn [set_autoMode m_autoMode m_started]. rewrite Hs, andb_false_r.
    reflexivity.
Qed.

(** X8. [on_btnStreamOneShot_toggled(toggled)] gives the streaming flag
    of the trigger the value [toggled], true in oneshot mode; a
    [startStop(true)] that follows gives it the opposite value, true in
    streaming mode. *)
Theorem streaming_flag_after_toggle_and_start (toggled : bool)
    (la : LogicAnalyzer) :
  m_started la = false ->
  digitalStreamingFlag (trigger (on_btnStreamOneShot_toggled toggled la))
  = toggled /\
  digitalStreamingFlag
    (trigger (startStop true (on_btnStreamOneShot_toggled toggled la)))
  = negb toggled.
Proof.
  intros Hs. split; [reflexivity |].
  unfold startStop. cbn [on_btnStreamOneShot_toggled m_started]. rewrite Hs.
  cbn. destruct (m_autoMode la); reflexivity.
Qed.

(** ** The trigger menus *)

Lemma condition_of_comboIndex_of_condition
    (c : M2K_TRIGGER_CONDITION_DIGITAL) :
  condition_of_comboIndex (comboIndex_of_condition c) = Some c /\
  0 <= comboIndex_of_condition c < 6.
Proof.
  destruct c; (split; [reflexivity |]); vm_compute;
    (split; [discriminate | reflexivity]).
Qed.

Lemma comboIndex_of_condition_of_index (index : Z) :
  0 <= index < 6 ->
  exists c, condition_of_comboIndex index = Some c /\
            comboIndex_of_condition c = index.
Proof.
  intros H.
  assert (Hc : index = 0 \/ index = 1 \/ index = 2 \/ index = 3 \/
               index = 4 \/ index = 5) by lia.
  destruct Hc as [-> | [-> | [-> | [-> | [-> | ->]]]]];
    eexists; split; reflexivity.
Qed.

(** X9. The index a combo box shows for a condition and the condition
    set for an index are inverse to each other: every condition comes
    back from its index, every index from 0 to 5 comes back from its
    condition, and the index 0 stands for no trigger. *)
Theorem combo_index_and_condition_are_inverse :
  (forall c, condition_of_comboIndex (comboIndex_of_condition c) = Some c /\
             0 <= comboIndex_of_condition c < 6) /\
  (forall index, 0 <= index < 6 ->
     exists c, condition_of_comboIndex index = Some c /\
               comboIndex_of_condition c = index) /\
  condition_of_comboIndex 0 = Some NO_TRIGGER_DIGITAL.
Proof.
  split; [| split].
  - apply condition_of_comboIndex_of_condition.
  - apply comboIndex_of_condition_of_index.
  - reflexivity.
Qed.

(** X10. Choosing an index from 0 to 5 in the trigger combo box while a
    data channel is selected sets the condition of that channel and of no
    other, and opening the channel settings afterwards shows that index
    again. *)
Theorem chosen_trigger_index_is_shown_again (index channel other : Z)
    (t : M2kHardwareTrigger) (shown : Z) :
  0 <= index < 6 ->
  0 <= channel < Z.of_nat (length (digitalCondition t)) ->
  let t' := triggerComboBox_currentIndexChanged index channel t in
  condition_of_comboIndex index
  = Some (getDigitalCondition t' (Z.to_nat channel)) /\
  (0 <= other -> other <> channel ->
   getDigitalCondition t' (Z.to_nat other)
   = getDigitalCondition t (Z.to_nat other)) /\
  digitalExternalCondition t' = digitalExternalCondition t /\
  (on_btnChannelSettings_toggled true (length (digitalCondition t)) channel
     shown t').1 = index.
Proof.
  intros Hi Hc t'.
  destruct (comboIndex_of_condition_of_index index Hi) as (c & Hcond & Hidx).
  assert (Ht' : t' = setDigitalCondition (Z.to_nat channel) c t).
  { unfold t', triggerComboBox_currentIndexChanged. rewrite Hcond.
    unfold setDigitalCondition_int.
    destruct (Z.ltb_spec channel 0); [lia | reflexivity]. }
  assert (Hget : getDigitalCondition t' (Z.to_nat channel) = c).
  { rewrite Ht'. unfold getDigitalCondition, setDigitalCondition. cbn.
    rewrite list_lookup_insert_eq by lia. reflexivity. }
  split; [rewrite Hget; exact Hcond |]. split; [| split].
  - intros Ho Hne. rewrite Ht'.
    unfold getDigitalCondition, setDigitalCondition. cbn.
    rewrite list_lookup_insert_ne by lia. reflexivity.
  - rewrite Ht'. reflexivity.
  - unfold on_btnChannelSettings_toggled.
    assert (Hlen : length (digitalCondition t') = length (digitalCondition t)).
    { rewrite Ht'. unfold setDigitalCondition. cbn. apply length_insert. }
    destruct (Z.eqb_spec channel (-1)); [lia |].
    destruct (Z.ltb_spec channel (Z.of_nat (length (digitalCondition t))));
      [| lia].
    cbn. rewrite Hget. exact Hidx.
Qed.

(** X11. Opening or closing the channel settings never changes the
    trigger of the front-end: when the combo box is told to show the
    condition of the selected channel and its slot writes the channel
    back, it writes the condition the channel already has. *)
Theorem channel_settings_leave_the_trigger (checked : bool)
    (nbChannels : nat) (m_selectedChannel triggerComboBox : Z)
    (t : M2kHardwareTrigger) :
  (on_btnChannelSettings_toggled checked nbChannels m_selectedChannel
     triggerComboBox t).2 = t.
Proof.
  unfold on_btnChannelSettings_toggled.
  destruct (checked && negb (m_selectedChannel =? -1)
            && (m_selectedChannel <? Z.of_nat nbChannels)); [| reflexivity].
  cbn [snd]. unfold setCurrentIndex.
  destruct (triggerComboBox =?
            comboIndex_of_condition
              (getDigitalCondition t (Z.to_nat m_selectedChannel)));
    [reflexivity |].
  unfold triggerComboBox_currentIndexChanged.
  rewrite (proj1 (condition_of_comboIndex_of_condition _)).
  unfold setDigitalCondition_int.
  destruct (m_selectedChannel <? 0); [reflexivity |].
  unfold setDigitalCondition, getDigitalCondition.
  destruct (digitalCondition t !! Z.to_nat m_selectedChannel) as [c |] eqn:Hc.
  - cbn. rewrite list_insert_id by exact Hc. destruct t; reflexivity.
  - cbn. apply lookup_ge_None in Hc.
    rewrite list_insert_ge by exact Hc. destruct t; reflexivity.
Qed.

Lemma externalTriggerCondition_consistent (index : Z) (m : TriggerMenu) :
  -5 <= index ->
  external_consistent (externalTriggerCondition_currentIndexChanged index m).
Proof.
  intros H. unfold external_consistent,
    externalTriggerCondition_currentIndexChanged. cbn.
  unfold condition_of_comboIndex.
  pose proof (Z.rem_bound_pos (index + 5) 6) as Hb.
  assert (Hr : 0 <= Z.rem (index + 5) 6 < 6) by (apply Hb; lia).
  set (r := Z.rem (index + 5) 6) in *.
  assert (Hc : r = 0 \/ r = 1 \/ r = 2 \/ r = 3 \/ r = 4 \/ r = 5) by lia.
  destruct Hc as [-> | [-> | [-> | [-> | [-> | ->]]]]]; reflexivity.
Qed.

(** X12. The condition box of the external trigger stays in step with
    the front-end: [setupTriggerMenu] makes it show the external
    condition, and the slots of the two boxes and of the enable switch
    keep it so; when the source is changed to the oscilloscope, the
    external condition of the front-end is no trigger, the box shows its
    first item and is disabled. *)
Theorem external_condition_box_in_step (m : TriggerMenu) (index : Z)
    (on : bool) :
  0 <= index ->
  external_consistent (setupTriggerMenu_external m) /\
  external_consistent (externalTriggerCondition_currentIndexChanged index m) /\
  (external_consistent m ->
   external_consistent (externalTriggerSource_currentIndexChanged index m) /\
   external_consistent (btnEnableExternalTrigger_toggled on m) /\
   (index <> 0 ->
    let m' := externalTriggerSource_currentIndexChanged index m in
    digitalExternalCondition (menuTrigger m') = NO_TRIGGER_DIGITAL /\
    externalTriggerConditionComboBox m' = 0 /\
    externalTriggerConditionComboBox_disabled m' = true)).
Proof.
  intros Hi. split; [| split].
  - unfold external_consistent, setupTriggerMenu_external. cbn.
    apply condition_of_comboIndex_of_condition.
  - apply externalTriggerCondition_consistent. lia.
  - intros Hm.
    assert (Hsrc :
      external_consistent (externalTriggerSource_currentIndexChanged index m) /\
      (index <> 0 ->
       let m' := externalTriggerSource_currentIndexChanged index m in
       digitalExternalCondition (menuTrigger m') = NO_TRIGGER_DIGITAL /\
       externalTriggerConditionComboBox m' = 0 /\
       externalTriggerConditionComboBox_disabled m' = true)).
    { unfold externalTriggerSource_currentIndexChanged.
      destruct (Z.eqb_spec index 0) as [-> | Hne].
      - split; [exact Hm | intros H; contradiction].
      - unfold setCurrentIndex. cbn [externalTriggerConditionComboBox].
        destruct (Z.eqb_spec (externalTriggerConditionComboBox m) 0)
          as [H0 | Hn0].
        + split; [exact Hm |]. intros _. cbn.
          unfold external_consistent in Hm. rewrite H0 in Hm.
          cbn in Hm. injection Hm as <-. repeat split. exact H0.
        + split; [apply (externalTriggerCondition_consistent 0); lia |].
          intros _. cbn. repeat split. }
    destruct Hsrc as [Hs Ho]. split; [exact Hs |]. split; [| exact Ho].
    unfold external_consistent, btnEnableExternalTrigger_toggled.
    destruct on; cbn; [| exact Hm].
    unfold external_consistent in Hm. rewrite Hm. reflexivity.
Qed.

(** ** Adding and stacking decoders *)

(** The loop with [break] finds the first decoder of the list with the
    id: no decoder before it has the id. *)
Lemma stackDecoder_search_first (text : string) (l : list srd_decoder) :
  In text (map id l) ->
  exists dec before after,
    stackDecoder_search text l = Some dec /\ id dec = text /\
    l = before ++ dec :: after /\
    List.Forall (fun d => id d <> text) before.
Proof.
  induction l as [| x l IH]; cbn; [tauto |]. intros Hin.
  destruct (String.eqb_spec (id x) text) as [He | Hne].
  - exists x, [], l. repeat split; [exact He | constructor].
  - destruct Hin as [Hx | Hin]; [contradiction |].
    destruct (IH Hin) as (dec & before & after & Hs & Hid & -> & Hb).
    exists dec, (x :: before), after.
    repeat split; [exact Hs | exact Hid | constructor; assumption].
Qed.

(** The loop without [break] keeps the last decoder of the list with the
    id: no decoder after it has the id. *)
Lemma addDecoder_search_last (text : string) (l : list srd_decoder) :
  In text (map id l) ->
  exists dec before after,
    addDecoder_search text l = Some dec /\ id dec = text /\
    l = before ++ dec :: after /\
    List.Forall (fun d => id d <> text) after.
Proof.
  unfold addDecoder_search.
  induction l as [| x l IH] using rev_ind; cbn; [tauto |]. intros Hin.
  rewrite foldl_app. cbn.
  destruct (String.eqb_spec (id x) text) as [He | Hne].
  - exists x, l, []. repeat split; [exact He | constructor].
  - rewrite map_app in Hin. apply in_app_or in Hin as [Hin | Hin].
    + destruct (IH Hin) as (dec & before & after & Hs & Hid & -> & Ha).
      exists dec, before, (after ++ [x]).
      repeat split; [exact Hs | exact Hid | |].
      * rewrite <- app_assoc. reflexivity.
      * apply List.Forall_app. split; [exact Ha |].
        constructor; [exact Hne | constructor].
    + cbn in Hin. destruct Hin as [Hx | []]. contradiction.
Qed.

Lemma unique_id (l : list srd_decoder) (d1 d2 : srd_decoder) :
  List.NoDup (map id l) -> In d1 l -> In d2 l -> id d1 = id d2 -> d1 = d2.
Proof.
  induction l as [| x l IH]; cbn; [tauto |].
  intros Hnd H1 H2 Hid. apply List.NoDup_cons_iff in Hnd as [Hx Hnd].
  destruct H1 as [-> | H1], H2 as [-> | H2].
  - reflexivity.
  - exfalso. apply Hx. rewrite Hid. apply List.in_map. exact H2.
  - exfalso. apply Hx. rewrite <- Hid. apply List.in_map. exact H1.
  - apply IH; assumption.
Qed.

(** The items after the prompt are the ones offered for stacking on a
    decoder that gives "logic". *)
Lemma setupDecoders_stackable (l : list srd_decoder) :
  setupDecoders l
  = "Select a decoder to add"%string
    :: stackable l (mk_srd_decoder EmptyString [] ["logic"%string]).
Proof. reflexivity. Qed.

(** X13. The combo box for adding a decoder holds its prompt and then
    the ids of exactly the decoders of the catalog whose input is "logic",
    in the order of [strcmp] on the ids. *)
Theorem decoders_offered_for_adding (srd_decoder_list : list srd_decoder) :
  exists offered,
    setupDecoders srd_decoder_list
    = "Select a decoder to add"%string :: offered /\
    Permutation offered
      (map id (List.filter
                 (fun dec => String.eqb (inputKind dec) "logic"%string)
                 srd_decoder_list)) /\
    (forall i, In i offered <->
       exists dec, In dec srd_decoder_list /\ id dec = i /\
                   inputKind dec = "logic"%string) /\
    StronglySorted id_le offered.
Proof.
  eexists. split; [apply setupDecoders_stackable |].
  apply (stackable_spec srd_decoder_list
           (mk_srd_decoder EmptyString [] ["logic"%string])).
Qed.

(** X14. An item chosen under the prompt of the combo box for adding a
    decoder is always found in the catalog: the new curve gets a decoder
    with that id, the last one of the catalog with it (no decoder after it
    in the catalog has the id); when the ids of the catalog are all
    different that decoder takes "logic". At the prompt itself the slot
    does nothing. *)
Theorem added_decoder_is_found (srd_decoder_list : list srd_decoder)
    (currentIndex : Z) (decoder : string) :
  0 < currentIndex ->
  setupDecoders srd_decoder_list !! Z.to_nat currentIndex = Some decoder ->
  addDecoderComboBox_currentIndexChanged 0 decoder srd_decoder_list = None /\
  exists dec,
    addDecoderComboBox_currentIndexChanged currentIndex decoder
      srd_decoder_list = Some (Some dec) /\
    id dec = decoder /\ In dec srd_decoder_list /\
    (exists before after,
       srd_decoder_list = before ++ dec :: after /\
       List.Forall (fun d => id d <> decoder) after) /\
    (List.NoDup (map id srd_decoder_list) ->
     inputKind dec = "logic"%string).
Proof.
  intros Hidx Hitem. split; [reflexivity |].
  rewrite setupDecoders_stackable in Hitem.
  destruct (Z.to_nat currentIndex) as [| pos] eqn:Hpos; [lia |].
  cbn in Hitem. apply list_elem_of_lookup_2 in Hitem.
  apply list_elem_of_In in Hitem.
  destruct (stackable_spec srd_decoder_list
              (mk_srd_decoder EmptyString [] ["logic"%string]))
    as (_ & Hiff & _).
  apply Hiff in Hitem as (d & Hd & Hid & Hkind).
  destruct (addDecoder_search_last decoder srd_decoder_list)
    as (dec & before & after & Hs & Hdid & Hcut & Hafter).
  { rewrite <- Hid. apply List.in_map. exact Hd. }
  assert (Hdec : In dec srd_decoder_list).
  { rewrite Hcut. apply in_or_app. right. left. reflexivity. }
  exists dec. unfold addDecoderComboBox_currentIndexChanged.
  destruct (Z.eqb_spec currentIndex 0); [lia |].
  rewrite Hs.
  split; [reflexivity |]. split; [exact Hdid |]. split; [exact Hdec |].
  split; [exists before, after; split; assumption |].
  intros Hnd.
  rewrite (unique_id srd_decoder_list dec d Hnd Hdec Hd); [exact Hkind |].
  congruence.
Qed.

(** X15. An item chosen under the first one of the combo box for
    stacking is always found in the catalog: the decoder stacked has that
    id, the first one of the catalog with it (no decoder before it in the
    catalog has the id); when the ids of the catalog are all different its
    input kind is the output kind of the top of the stack. *)
Theorem stacked_decoder_is_compatible (srd_decoder_list : list srd_decoder)
    (nbChannels : nat) (m_selectedChannel : Z)
    (m_plotCurves : list GenericLogicPlotCurve) (ui : StackDecoderUi)
    (stack : list srd_decoder) (top : srd_decoder) (currentIndex : Z)
    (text : string) :
  Z.of_nat nbChannels <= m_selectedChannel ->
  m_plotCurves !! Z.to_nat m_selectedChannel = Some (AnnotationCurve stack) ->
  last stack = Some top ->
  0 < currentIndex ->
  stackDecoderComboBox
    (updateStackDecoderButton srd_decoder_list nbChannels m_selectedChannel
       m_plotCurves ui) !! Z.to_nat currentIndex = Some text ->
  exists dec,
    stackDecoderComboBox_currentTextChanged text currentIndex
      srd_decoder_list nbChannels m_selectedChannel m_plotCurves = Some dec /\
    id dec = text /\ In dec srd_decoder_list /\
    (exists before after,
       srd_decoder_list = before ++ dec :: after /\
       List.Forall (fun d => id d <> text) before) /\
    (List.NoDup (map id srd_decoder_list) ->
     inputKind dec = outputKind top).
Proof.
  intros Hsel Hcurve Htop Hidx Hitem.
  apply lookup_lt_Some in Hcurve as Hlt.
  unfold updateStackDecoderButton in Hitem.
  unfold stackDecoderComboBox_currentTextChanged.
  destruct (Z.ltb_spec m_selectedChannel (Z.of_nat nbChannels)); [lia |].
  destruct (Z.gtb_spec m_selectedChannel
              (Z.of_nat (length m_plotCurves) - 1)); [lia |].
  destruct (Z.eqb_spec currentIndex 0); [lia |].
  rewrite Hcurve in Hitem |- *. rewrite Htop in Hitem. cbn in Hitem.
  destruct (Z.to_nat currentIndex) as [| pos] eqn:Hpos; [lia |].
  cbn in Hitem. apply list_elem_of_lookup_2 in Hitem.
  apply list_elem_of_In in Hitem.
  destruct (stackable_spec srd_decoder_list top) as (_ & Hiff & _).
  apply Hiff in Hitem as (d & Hd & Hid & Hkind).
  destruct (stackDecoder_search_first text srd_decoder_list)
    as (dec & before & after & Hs & Hdid & Hcut & Hbefore).
  { rewrite <- Hid. apply List.in_map. exact Hd. }
  assert (Hdec : In dec srd_decoder_list).
  { rewrite Hcut. apply in_or_app. right. left. reflexivity. }
  exists dec.
  split; [exact Hs |]. split; [exact Hdid |]. split; [exact Hdec |].
  split; [exists before, after; split; assumption |].
  intros Hnd.
  rewrite (unique_id srd_decoder_list dec d Hnd Hdec Hd); [exact Hkind |].
  congruence.
Qed.

(** X16. [sort_pds] orders two decoders as the lexicographic order of
    the bytes of their ids does. *)
Theorem sort_pds_is_lexicographic (a b : srd_decoder) :
  c_string (id a) -> c_string (id b) ->
  (sort_pds a b <= 0 <-> String.compare (id a) (id b) <> Gt) /\
  (sort_pds a b = 0 <-> id a = id b).
Proof.
  intros Ha Hb. split; [apply id_le_lexicographic; assumption |].
  unfold sort_pds. revert Ha Hb. generalize (id a) (id b). clear a b.
  intros s. induction s as [| c1 r1 IH]; intros [| c2 r2]; cbn;
    intros Ha Hb.
  - tauto.
  - pose proof (uchar_range c2). split; [lia | discriminate].
  - pose proof (uchar_range c1). split; [lia | discriminate].
  - destruct Ha as [H1 Ha], Hb as [H2 Hb].
    destruct (Z.eqb_spec (uchar c1) (uchar c2)) as [He | Hne].
    + destruct (Z.eqb_spec (uchar c1) 0); [contradiction |].
      assert (c1 = c2).
      { unfold uchar in He. apply N2Z.inj in He.
        rewrite <- (ascii_N_embedding c1), <- (ascii_N_embedding c2), He.
        reflexivity. }
      subst c2. rewrite (IH r2 Ha Hb).
      split; [intros ->; reflexivity | intros H; injection H; auto].
    + split; [lia |]. intros H. injection H as -> _. contradiction.
Qed.

(** ** The history of the right menu *)

Lemma CustomPushButton_eqb_eq (a b : CustomPushButton) :
  CustomPushButton_eqb a b = true <-> a = b.
Proof. destruct a, b; cbn; split; (reflexivity || discriminate). Qed.

Lemma contains_In (l : list CustomPushButton) (btn : CustomPushButton) :
  contains l btn = true <-> In btn l.
Proof.
  induction l as [| x l IH]; cbn; [split; [discriminate | tauto] |].
  rewrite orb_true_iff, CustomPushButton_eqb_eq, IH. tauto.
Qed.

Lemma removeOne_In (l : list CustomPushButton) (btn x : CustomPushButton) :
  x <> btn -> (In x (removeOne l btn) <-> In x l).
Proof.
  intros Hne. induction l as [| y l IH]; cbn; [tauto |].
  destruct (CustomPushButton_eqb y btn) eqn:He.
  - apply CustomPushButton_eqb_eq in He. subst y.
    split; [tauto | intros [H | H]; [congruence | exact H]].
  - cbn. rewrite IH. tauto.
Qed.

Lemma removeOne_NoDup (l : list CustomPushButton) (btn : CustomPushButton) :
  List.NoDup l ->
  List.NoDup (removeOne l btn) /\ ~ In btn (removeOne l btn).
Proof.
  induction 1 as [| y l Hy Hnd IH]; cbn; [split; [constructor | tauto] |].
  destruct (CustomPushButton_eqb y btn) eqn:He.
  - apply CustomPushButton_eqb_eq in He. subst y. split; assumption.
  - assert (Hne : y <> btn).
    { intros ->. destruct btn; discriminate. }
    destruct IH as [IH1 IH2]. split.
    + constructor; [| exact IH1]. rewrite removeOne_In by exact Hne. exact Hy.
    + cbn. intros [H | H]; [contradiction | exact (IH2 H)].
Qed.

Lemma NoDup_snoc (l : list CustomPushButton) (btn : CustomPushButton) :
  List.NoDup l -> ~ In btn l -> List.NoDup (l ++ [btn]).
Proof.
  intros Hnd Hn. apply NoDup_ListNoDup. apply NoDup_app.
  repeat split.
  - apply NoDup_ListNoDup. exact Hnd.
  - intros x Hx Hx'. apply list_elem_of_In in Hx.
    apply list_elem_of_In in Hx'. cbn in Hx'. destruct Hx' as [<- | []].
    contradiction.
  - apply NoDup_singleton.
Qed.

(** What [toggleRightMenu] does to the history and to the menu. *)
Lemma toggleRightMenu_order (p : Panels) (btn : CustomPushButton)
    (checked : bool) (m : RightMenu) :
  List.NoDup (m_menuOrder m) ->
  let m' := toggleRightMenu p btn checked m in
  List.NoDup (m_menuOrder m') /\
  (button_id p btn <> - gsettings_panel p ->
   last (m_menuOrder m') = Some btn /\
   forall x, In x (m_menuOrder m') <-> x = btn \/ In x (m_menuOrder m)) /\
  (button_id p btn = - gsettings_panel p ->
   m_menuOrder m' = m_menuOrder m) /\
  m_menuButtonActions m' = m_menuButtonActions m /\
  toggleMenu m' = toggleMenu m ++ [checked].
Proof.
  intros Hnd m'.
  assert (Hord : m_menuOrder m'
    = if negb (button_id p btn =? - gsettings_panel p) then
        if negb (contains (m_menuOrder m) btn) then m_menuOrder m ++ [btn]
        else removeOne (m_menuOrder m) btn ++ [btn]
      else m_menuOrder m).
  { unfold m', toggleRightMenu. destruct checked; reflexivity. }
  assert (Hrest : m_menuButtonActions m' = m_menuButtonActions m /\
                  toggleMenu m' = toggleMenu m ++ [checked]).
  { unfold m', toggleRightMenu. destruct checked; split; reflexivity. }
  rewrite Hord.
  destruct (Z.eqb_spec (button_id p btn) (- gsettings_panel p)) as [He | Hne];
    cbn [negb].
  - repeat split; try tauto; apply Hrest.
  - destruct (contains (m_menuOrder m) btn) eqn:Hc; cbn [negb].
    + apply contains_In in Hc.
      destruct (removeOne_NoDup (m_menuOrder m) btn Hnd) as [Hnd' Hnot].
      split; [apply NoDup_snoc; assumption |].
      split; [| split; [tauto | apply Hrest]].
      intros _. split; [apply last_snoc |].
      intros x. rewrite in_app_iff. cbn.
      destruct (CustomPushButton_eqb x btn) eqn:Hx.
      * apply CustomPushButton_eqb_eq in Hx. subst x. tauto.
      * assert (x <> btn) by (intros ->; destruct btn; discriminate).
        rewrite removeOne_In by assumption.
        split; [intros [H' | [H' | []]]; [tauto | congruence]
               | intros [H' | H']; [congruence | tauto]].
    + assert (Hnot : ~ In btn (m_menuOrder m)).
      { intros H. apply contains_In in H. congruence. }
      split; [apply NoDup_snoc; assumption |].
      split; [| split; [tauto | apply Hrest]].
      intros _. split; [apply last_snoc |].
      intros x. rewrite in_app_iff. cbn. intuition congruence.
Qed.


Lemma rightMenuFinished_loop_spec (p : Panels)
    (actions : list (CustomPushButton * bool)) :
  forall m, List.NoDup (m_menuOrder m) ->
  let m' := rightMenuFinished_loop p actions m in
  List.NoDup (m_menuOrder m') /\
  (actions <> [] -> m_menuButtonActions m' = []) /\
  toggleMenu m' = toggleMenu m ++ map snd actions.
Proof.
  induction actions as [| a rest IH]; intros m Hnd.
  - cbn. rewrite app_nil_r. repeat split; [exact Hnd | congruence].
  - cbn [rightMenuFinished_loop].
    set (m0 := mkRightMenu (m_menuOrder m) rest (stackedWidget_currentIndex m)
                 (expanding m) (toggleMenu m)).
    destruct (toggleRightMenu_order p a.1 a.2 m0 Hnd)
      as (Hnd1 & _ & _ & Hq & Ht).
    destruct (IH (toggleRightMenu p a.1 a.2 m0) Hnd1) as (Hnd2 & Hq2 & Ht2).
    repeat split.
    + exact Hnd2.
    + intros _. destruct rest as [| b rest'].
      * cbn [rightMenuFinished_loop]. rewrite Hq. reflexivity.
      * apply Hq2. discriminate.
    + rewrite Ht2, Ht. cbn. rewrite <- app_assoc. reflexivity.
Qed.

(** X18. [rightMenuFinished] performs the actions queued during the
    animation in the order they arrived: the menu is toggled once per
    action, in that order, the queue is empty afterwards and the history
    is still free of repetitions. *)
Theorem rightMenuFinished_drains_the_queue (p : Panels) (m : RightMenu) :
  List.NoDup (m_menuOrder m) ->
  let m' := rightMenuFinished p m in
  m_menuButtonActions m' = [] /\
  toggleMenu m' = toggleMenu m ++ map snd (m_menuButtonActions m) /\
  List.NoDup (m_menuOrder m').
Proof.
  intros Hnd m'. unfold m', rightMenuFinished.
  destruct (rightMenuFinished_loop_spec p (m_menuButtonActions m) m Hnd)
    as (H1 & H2 & H3).
  repeat split; try assumption.
  destruct (m_menuButtonActions m) eqn:Hq; [cbn; exact Hq |].
  apply H2. discriminate.
Qed.

(** X19. Unchecking the cursors box while no animation runs takes the
    cursors button out of the history, whether the button was checked or
    not, so that it is not the button the settings button brings back. *)
Theorem unchecked_cursors_leave_the_history (p : Panels)
    (btnCursors_checked : bool) (m : RightMenu) :
  List.NoDup (m_menuOrder m) ->
  let m' := cursorsBox_toggled p false btnCursors_checked false m in
  ~ In btnCursors (m_menuOrder m') /\
  List.NoDup (m_menuOrder m') /\
  (forall x, x <> btnCursors ->
     (In x (m_menuOrder m') <-> In x (m_menuOrder m))).
Proof.
  intros Hnd m'. unfold m', cursorsBox_toggled, triggerRightMenuToggle.
  destruct btnCursors_checked.
  - destruct (toggleRightMenu_order p btnCursors false m Hnd)
      as (Hnd1 & Hin & Hsame & _).
    cbn [m_menuOrder].
    destruct (removeOne_NoDup _ btnCursors Hnd1) as [Hnd2 Hnot].
    repeat split; try assumption.
    + intros Hx. rewrite removeOne_In in Hx by assumption.
      destruct (Z.eq_dec (button_id p btnCursors) (- gsettings_panel p))
        as [He | Hne].
      * rewrite (Hsame He) in Hx. exact Hx.
      * apply (proj2 (Hin Hne)) in Hx. destruct Hx; [congruence | assumption].
    + intros Hx. rewrite removeOne_In by assumption.
      destruct (Z.eq_dec (button_id p btnCursors) (- gsettings_panel p))
        as [He | Hne].
      * rewrite (Hsame He). exact Hx.
      * apply (proj2 (Hin Hne)). right. exact Hx.
  - cbn [m_menuOrder].
    destruct (removeOne_NoDup _ btnCursors Hnd) as [Hnd2 Hnot].
    repeat split; try assumption; intros Hx.
    + rewrite removeOne_In in Hx by assumption. exact Hx.
    + rewrite removeOne_In by assumption. exact Hx.
Qed.

(** X20. Unchecking the cursors box during an animation, with the cursors
    button checked: the button leaves the history at once, but its
    unchecking waits in the queue, and when the animation ends
    [rightMenuFinished] puts the button back as the last entry of the
    history (its id -1 not being the one of the general settings). *)
Theorem queued_uncheck_brings_cursors_back (p : Panels) (m : RightMenu) :
  List.NoDup (m_menuOrder m) ->
  m_menuButtonActions m = [] ->
  gsettings_panel p <> 1 ->
  let m1 := cursorsBox_toggled p false true true m in
  ~ In btnCursors (m_menuOrder m1) /\
  m_menuButtonActions m1 = [(btnCursors, false)] /\
  last (m_menuOrder (rightMenuFinished p m1)) = Some btnCursors.
Proof.
  intros Hnd Hq Hg m1.
  destruct (removeOne_NoDup (m_menuOrder m) btnCursors Hnd) as [Hnd1 Hnot].
  assert (Hm1 : m_menuOrder m1 = removeOne (m_menuOrder m) btnCursors)
    by reflexivity.
  assert (Hq1 : m_menuButtonActions m1 = [(btnCursors, false)]).
  { unfold m1, cursorsBox_toggled, triggerRightMenuToggle. cbn.
    rewrite Hq. reflexivity. }
  split; [rewrite Hm1; exact Hnot |]. split; [exact Hq1 |].
  unfold rightMenuFinished. rewrite Hq1. cbn [rightMenuFinished_loop fst snd].
  match goal with
  | |- context [toggleRightMenu p btnCursors false ?m0] =>
      destruct (toggleRightMenu_order p btnCursors false m0) as (_ & Hin & _)
  end.
  - exact Hnd1.
  - apply Hin. cbn. lia.
Qed.

(** ** The bitfield widget *)

Section BitfieldProperties.

Import Bitfield.

Lemma to_uint32_small (z : Z) : 0 <= z < 2 ^ 32 -> to_uint32 z = z.
Proof. intros H. unfold to_uint32. apply Z.mod_small. exact H. Qed.

Lemma pow2_minus_1_ones (n : Z) : 0 <= n -> pow2_minus_1 n = Z.ones n.
Proof.
  intros H. unfold pow2_minus_1. destruct (Z.ltb_spec n 0); [lia |].
  rewrite Z.ones_equiv. lia.
Qed.

Lemma pow2_le_32 (n : Z) : 0 <= n <= 32 -> 0 < 2 ^ n <= 2 ^ 32.
Proof.
  intros H. split; [apply Z.pow_pos_nonneg; lia |].
  apply Z.pow_le_mono_r; lia.
Qed.

(** The two arguments of the signal of [setValue], for a bitfield that
    fits the register and a value of its width. *)
Lemma setValue_eq (w : BitfieldWidget) (v : Z) :
  fits_register w -> 0 <= v <= pow2_minus_1 (width w) ->
  setValue w v
  = (Z.shiftl v (regOffset w), Z.shiftl (Z.ones (width w)) (regOffset w)).
Proof.
  intros (Ho & Hw & Hs) Hv. unfold setValue.
  rewrite pow2_minus_1_ones in * by lia.
  rewrite Z.ones_equiv in Hv.
  pose proof (pow2_le_32 (width w)) as Hp.
  pose proof (pow2_le_32 (regOffset w)) as Hp'.
  assert (Hpow : 2 ^ width w * 2 ^ regOffset w <= 2 ^ 32).
  { rewrite <- Z.pow_add_r by lia. apply Z.pow_le_mono_r; lia. }
  rewrite (to_uint32_small (Z.ones (width w)))
    by (rewrite Z.ones_equiv; lia).
  rewrite !Z.shiftl_mul_pow2 by lia.
  rewrite !to_uint32_small; [reflexivity | |].
  - rewrite Z.ones_equiv. nia.
  - nia.
Qed.

(** X21. For a bitfield that fits the register and a value the spin box
    allows, [setValue] emits the value moved to the offset of the bitfield
    and a mask whose bits are exactly those of the bitfield; the value has
    no bit outside the mask. *)
Theorem setValue_stays_in_its_mask (w : BitfieldWidget) (v : Z) :
  fits_register w -> 0 <= v <= pow2_minus_1 (width w) ->
  let r := setValue w v in
  r.1 = v * 2 ^ regOffset w /\
  Z.land r.1 r.2 = r.1 /\
  (forall i, 0 <= i ->
     Z.testbit r.2 i
     = (regOffset w <=? i) && (i <? regOffset w + width w)).
Proof.
  intros Hf Hv r. unfold r. rewrite (setValue_eq w v Hf Hv). cbn [fst snd].
  destruct Hf as (Ho & Hw & Hs).
  rewrite pow2_minus_1_ones in Hv by lia. rewrite Z.ones_equiv in Hv.
  split; [apply Z.shiftl_mul_pow2; lia |]. split.
  - rewrite <- Z.shiftl_land. rewrite Z.land_ones by lia.
    rewrite Z.mod_small by lia. reflexivity.
  - intros i Hi. rewrite Z.shiftl_spec by lia.
    destruct (Z.leb_spec (regOffset w) i) as [Hle | Hlt].
    + rewrite Z.testbit_ones_nonneg by lia. cbn.
      destruct (Z.ltb_spec (i - regOffset w) (width w));
        destruct (Z.ltb_spec i (regOffset w + width w)); lia || reflexivity.
    + rewrite Z.testbit_neg_r by lia. reflexivity.
Qed.

(** A value of [n] bits moved to an offset has its bits from the offset
    to the offset plus [n]. *)
Lemma shifted_bits (a off n i : Z) :
  0 <= off -> 0 <= n -> 0 <= a <= Z.ones n ->
  Z.testbit (Z.shiftl a off) i = true -> off <= i < off + n.
Proof.
  intros Hoff Hn Ha Ht.
  destruct (Z.ltb_spec i 0) as [Hneg | Hi];
    [rewrite Z.testbit_neg_r in Ht by lia; discriminate |].
  rewrite Z.shiftl_spec in Ht by lia.
  destruct (Z.leb_spec off i) as [Hle | Hlt];
    [| rewrite Z.testbit_neg_r in Ht by lia; discriminate].
  split; [exact Hle |].
  destruct (Z.ltb_spec (i - off) n) as [Hl | Hg]; [lia |].
  exfalso. rewrite Z.ones_equiv in Ha.
  assert (Hzero : Z.testbit a (i - off) = false).
  { destruct (Z.eq_dec a 0) as [-> | Hnz]; [apply Z.testbit_0_l |].
    apply Z.bits_above_log2; [lia |].
    assert (Z.log2 a < n); [| lia].
    apply Z.log2_lt_pow2; lia. }
  congruence.
Qed.

Lemma land_separate (a b offa offb na nb : Z) :
  0 <= offa -> 0 <= offb -> 0 <= na -> 0 <= nb ->
  0 <= a <= Z.ones na -> 0 <= b <= Z.ones nb ->
  offa + na <= offb \/ offb + nb <= offa ->
  Z.land (Z.shiftl a offa) (Z.shiftl b offb) = 0.
Proof.
  intros Hoa Hob Hna Hnb Ha Hb Hsep.
  apply Z.bits_inj'. intros i Hi. rewrite Z.land_spec, Z.bits_0.
  destruct (Z.testbit (Z.shiftl a offa) i) eqn:Hta; [| reflexivity].
  destruct (Z.testbit (Z.shiftl b offb) i) eqn:Htb; [| reflexivity].
  apply (shifted_bits a offa na i) in Hta; try assumption.
  apply (shifted_bits b offb nb i) in Htb; try assumption.
  lia.
Qed.

Lemma ones_range (n : Z) : 0 <= n -> 0 <= Z.ones n <= Z.ones n.
Proof.
  intros Hn. rewrite Z.ones_equiv. pose proof (Z.pow_pos_nonneg 2 n). lia.
Qed.

(** X22. Two bitfields that fit the register and do not overlap have
    masks without a common bit, and the value one emits has no bit in the
    mask of the other. *)
Theorem masks_of_separate_bitfields (w1 w2 : BitfieldWidget) (v1 v2 : Z) :
  fits_register w1 -> fits_register w2 ->
  regOffset w1 + width w1 <= regOffset w2 ->
  0 <= v1 <= pow2_minus_1 (width w1) ->
  0 <= v2 <= pow2_minus_1 (width w2) ->
  Z.land (setValue w1 v1).2 (setValue w2 v2).2 = 0 /\
  Z.land (setValue w1 v1).1 (setValue w2 v2).2 = 0 /\
  Z.land (setValue w2 v2).1 (setValue w1 v1).2 = 0.
Proof.
  intros Hf1 Hf2 Hsep Hv1 Hv2.
  rewrite (setValue_eq w1 v1 Hf1 Hv1), (setValue_eq w2 v2 Hf2 Hv2).
  cbn [fst snd].
  destruct Hf1 as (Ho1 & Hw1 & Hs1), Hf2 as (Ho2 & Hw2 & Hs2).
  rewrite pow2_minus_1_ones in Hv1, Hv2 by lia.
  pose proof (ones_range (width w1)) as H1.
  pose proof (ones_range (width w2)) as H2.
  split; [| split].
  - apply (land_separate _ _ _ _ (width w1) (width w2)); lia.
  - apply (land_separate _ _ _ _ (width w1) (width w2)); lia.
  - apply (land_separate _ _ _ _ (width w2) (width w1)); lia.
Qed.

Lemma updateValue_eq (w : BitfieldWidget) (currentIndex value : Z) :
  0 <= width w < 32 ->
  let r := updateValue w currentIndex value in
  shown_value r.1 = Z.land value (Z.ones (width w)) /\
  r.2 = Z.shiftr value (width w).
Proof.
  intros Hw. unfold updateValue. cbn [fst snd].
  pose proof (pow2_le_32 (width w)) as Hp.
  assert (Hlt : 2 ^ width w < 2 ^ 32) by (apply Z.pow_lt_mono_r; lia).
  rewrite (to_uint32_small (2 ^ width w)) by lia.
  rewrite to_uint32_small by lia.
  rewrite Z.ones_equiv.
  replace (2 ^ width w - 1) with (Z.pred (2 ^ width w)) by lia.
  destruct (currentIndex =? 1); split; reflexivity.
Qed.

(** X23. [updateValue] on a 32-bit value, for a width from 0 to 31: what
    is shown is the value of the low [width] bits, which the spin box
    allows, the value left is the rest moved down, and nothing is lost
    between the two; the spin box gets it on page 1 and the combo box
    otherwise. *)
Theorem updateValue_splits_the_value (w : BitfieldWidget)
    (currentIndex value : Z) :
  0 <= width w < 32 -> 0 <= value < 2 ^ 32 ->
  let r := updateValue w currentIndex value in
  shown_value r.1 = value mod 2 ^ width w /\
  0 <= shown_value r.1 <= pow2_minus_1 (width w) /\
  r.2 = value / 2 ^ width w /\
  0 <= r.2 < 2 ^ 32 /\
  value = r.2 * 2 ^ width w + shown_value r.1 /\
  (r.1 = valueSpinBox_setValue (shown_value r.1) <-> currentIndex = 1).
Proof.
  intros Hw Hv r.
  assert (Hpage : r.1 = valueSpinBox_setValue (shown_value r.1)
                  <-> currentIndex = 1).
  { unfold r, updateValue. cbn [fst].
    destruct (Z.eqb_spec currentIndex 1); cbn; split; intros H;
      (reflexivity || assumption || discriminate || contradiction). }
  destruct (updateValue_eq w currentIndex value Hw) as [Hs Hr].
  fold r in Hs, Hr. revert Hpage. rewrite Hs, Hr. intros Hpage.
  rewrite Z.land_ones, Z.shiftr_div_pow2 in * by lia.
  pose proof (Z.pow_pos_nonneg 2 (width w)) as Hp.
  pose proof (Z.mod_pos_bound value (2 ^ width w)) as Hm.
  pose proof (Z.div_mod value (2 ^ width w)) as Hd.
  rewrite pow2_minus_1_ones, Z.ones_equiv by lia.
  assert (Hq : 0 <= value / 2 ^ width w <= value).
  { split; [apply Z.div_pos; lia |].
    apply Z.div_le_upper_bound; [lia |]. nia. }
  split; [reflexivity |]. split; [lia |]. split; [reflexivity |].
  split; [lia |]. split; [lia | exact Hpage].
Qed.

(** X24. What [setValue] writes, [updateValue] reads back: when the bits
    of a register under the mask of a bitfield are the value [setValue]
    emitted for [v], [updateValue] on the register moved down to the
    offset of the bitfield shows [v]. *)
Theorem updateValue_reads_what_setValue_wrote (w : BitfieldWidget)
    (currentIndex v register : Z) :
  fits_register w -> 0 <= v <= pow2_minus_1 (width w) ->
  Z.land register (setValue w v).2 = (setValue w v).1 ->
  shown_value
    (updateValue w currentIndex (Z.shiftr register (regOffset w))).1 = v.
Proof.
  intros Hf Hv Hreg. rewrite (setValue_eq w v Hf Hv) in Hreg.
  cbn [fst snd] in Hreg. destruct Hf as (Ho & Hw & Hs).
  rewrite (proj1 (updateValue_eq w currentIndex _ Hw)).
  rewrite pow2_minus_1_ones in Hv by lia.
  apply (f_equal (fun z => Z.shiftr z (regOffset w))) in Hreg.
  rewrite Z.shiftr_land, !Z.shiftr_shiftl_l, Z.sub_diag in Hreg by lia.
  cbn in Hreg. exact Hreg.
Qed.

Lemma widths_sum_nonneg (ws : list BitfieldWidget) :
  Forall (fun w => 0 <= width w < 32) ws -> 0 <= widths_sum ws.
Proof.
  induction 1 as [| w ws Hw _ IH]; cbn; [lia |].
  unfold widths_sum in IH. lia.
Qed.

(** X25. A row of widgets updated one after the other shows the
    consecutive bitfields of the value: the widget at place [i] shows the
    [width] bits that start at the sum of the widths before it. *)
Theorem updateValues_shows_consecutive_fields (ws : list BitfieldWidget)
    (currentIndex value : Z) (i : nat) (w : BitfieldWidget) :
  Forall (fun w => 0 <= width w < 32) ws ->
  ws !! i = Some w ->
  updateValues ws currentIndex value !! i
  = Some (Z.land (Z.shiftr value (widths_sum (take i ws)))
                 (Z.ones (width w))).
Proof.
  intros Hall. revert value i w.
  induction Hall as [| x ws Hx Hall IH]; intros value i w Hi;
    [discriminate |].
  cbn [updateValues].
  destruct (updateValue_eq x currentIndex value Hx) as [Hs Hr].
  destruct i as [| i].
  - cbn in Hi. injection Hi as <-.
    change (Some (shown_value (updateValue x currentIndex value).1)
            = Some (Z.land (Z.shiftr value 0) (Z.ones (width x)))).
    rewrite Hs, Z.shiftr_0_r. reflexivity.
  - cbn in Hi.
    change (updateValues ws currentIndex (updateValue x currentIndex value).2
              !! i
            = Some (Z.land
                      (Z.shiftr value (width x + widths_sum (take i ws)))
                      (Z.ones (width w)))).
    rewrite (IH _ i w Hi), Hr.
    rewrite Z.shiftr_shiftr
      by (apply widths_sum_nonneg, Forall_take; exact Hall).
    reflexivity.
Qed.

Lemma options_loop_from (children : list QDomElement) (fuel : nat) :
  forall (i : nat) (items : list string),
  (i < length children)%nat ->
  (length children - i <= fuel)%nat ->
  options_loop fuel children (Some i) items
  = Some (items ++ map Description (drop i children)).
Proof.
  induction fuel as [| fuel' IH]; intros i items Hi Hfuel; [lia |].
  cbn [options_loop].
  assert (Hlast : lastChildElement children = Some (length children - 1)%nat)
    by (destruct children; [cbn in Hi; lia | reflexivity]).
  rewrite Hlast. cbn [element_eqb].
  destruct (lookup_lt_is_Some_2 children i Hi) as [e He].
  assert (Hdrop : drop i children = e :: drop (S i) children)
    by (apply drop_S; exact He).
  cbn [Description_text]. rewrite He.
  destruct (Nat.eqb_spec (length children - 1) i) as [Heq | Hne].
  - rewrite Hdrop, drop_ge by lia. reflexivity.
  - cbn [nextSiblingElement].
    destruct (Nat.ltb_spec (S i) (length children)); [| lia].
    rewrite IH by lia. rewrite Hdrop. cbn. rewrite <- app_assoc.
    reflexivity.
Qed.

Lemma firstChildElement_Option_lt (children : list QDomElement) :
  forall (start i : nat),
  firstChildElement_Option children start = Some i ->
  (start <= i < start + length children)%nat.
Proof.
  induction children as [| e rest IH]; intros start i H; [discriminate |].
  cbn in H. destruct (String.eqb (tagName e) "Option").
  - injection H as <-. cbn. lia.
  - apply IH in H. cbn. lia.
Qed.

(** X26. With an "Options" element that has an "Option" child,
    [createWidget] shows the combo box and fills it, in document order,
    with the descriptions of the child elements from the first "Option"
    on; its loop ends within as many turns as there are children. *)
Theorem createWidget_fills_the_combo_box (w : BitfieldWidget)
    (children : list QDomElement) (first : nat) :
  options w = Some children ->
  firstChildElement_Option children 0 = Some first ->
  createWidget (length children) w
  = Some (mkValueWidgets 0 None (map Description (drop first children))).
Proof.
  intros Ho Hf. unfold createWidget. rewrite Ho, Hf.
  apply firstChildElement_Option_lt in Hf.
  rewrite options_loop_from by lia. reflexivity.
Qed.

(** X27. With an "Options" element that has child elements but no
    "Option" among them, the loop of [createWidget] never ends: the null
    element it starts from is never the last child, and its next sibling
    is null again. Without any child element the combo box gets one empty
    item. *)
Theorem createWidget_without_Option (w : BitfieldWidget)
    (children : list QDomElement) :
  options w = Some children ->
  firstChildElement_Option children 0 = None ->
  match children with
  | [] => forall fuel, createWidget (S fuel) w
                       = Some (mkValueWidgets 0 None [EmptyString])
  | _ :: _ => forall fuel, createWidget fuel w = None
  end.
Proof.
  intros Ho Hf. destruct children as [| e rest].
  - intros fuel. unfold createWidget. rewrite Ho. reflexivity.
  - intros fuel. unfold createWidget. rewrite Ho, Hf.
    assert (Hloop : forall items,
              options_loop fuel (e :: rest) None items = None).
    { induction fuel as [| fuel' IH]; intros items; [reflexivity |].
      cbn. apply IH. }
    rewrite Hloop. reflexivity.
Qed.

End BitfieldProperties.

(** * The further properties at example inputs *)

(** 2,000,000 samples read in 16 chunks of 125,000: all 16 copies stay
    in the buffer. *)
Lemma streaming_copies_stay_in_buffer_witness :
  0 <= 2000000 <= 2000000 /\
  length (copied (captureThread env_ok 20 false 2000000 2000000
                    Capture_start).2) = 16%nat /\
  last (copied (captureThread env_ok 20 false 2000000 2000000
                  Capture_start).2) = Some (1875000, 125000) /\
  writes_in_bounds
    (captureThread env_ok 20 false 2000000 2000000 Capture_start).2 = true.
Proof.
  assert (H : 0 <= 2000000 <= 2000000) by lia. split; [exact H |].
  split; [vm_compute; reflexivity |]. split; [vm_compute; reflexivity |].
  apply (streaming_copies_stay_in_buffer env_ok 20 2000000 2000000 H). lia.
Defined.

Lemma streaming_ranges_are_chunks_witness :
  0 < 2000000 < 2 ^ 31 /\
  Forall (fun e => 0 < e.2 - e.1 <= chunk_size 2000000 /\
                   e.2 - e.1 <= 2 ^ 19)
    (emitted (captureThread env_ok 5 false 2000000 2000000
                Capture_start).2).
Proof.
  assert (H : 0 < 2000000 < 2 ^ 31) by lia. split; [exact H |].
  exact (proj1 (streaming_ranges_are_chunks env_ok 5 2000000 2000000 H
                  (fun _ _ => eq_refl))).
Defined.

Lemma streaming_copy_in_bounds_iff_witness :
  1 <= 1001 <= 2 ^ 30 /\
  (writes_in_bounds
     (captureThread env_ok (Z.to_nat (bufferSizeAdjusted 1001)) false 1001
        (bufferSizeAdjusted 1001) Capture_start).2 = true
   <-> 1001 mod 4 = 0).
Proof.
  assert (H : 1 <= 1001 <= 2 ^ 30) by lia. split; [exact H |].
  exact (streaming_copy_in_bounds_iff env_ok 1001 H (fun _ _ => eq_refl)
           (fun _ => eq_refl)).
Defined.

Lemma channel_conditions_survive_a_capture_witness :
  let la := analyzer_example 1000 true true in
  m_started la = false /\ m_triggerState la = [] /\
  digitalCondition
    (trigger (startStop false
                (Nat.iter 2 timer_timeout (startStop true la))))
  = [RISING_EDGE_DIGITAL; LOW_LEVEL_DIGITAL].
Proof.
  split; [reflexivity |]. split; [reflexivity |].
  exact (proj1 (channel_conditions_survive_a_capture
                  (analyzer_example 1000 true true) 2 eq_refl eq_refl)).
Defined.

Lemma btnTriggerMode_starts_the_same_timer_witness :
  let la := analyzer_example 2000000 false false in
  m_started la = false /\ 0 <= bufferSizeButton la <= 2 ^ 30 /\
  m_timer (btnTriggerMode_toggled true (startStop true (set_autoMode false la)))
  = m_timer (startStop true (set_autoMode true la)).
Proof.
  assert (H : 0 <= 2000000 <= 2 ^ 30) by lia.
  split; [reflexivity |]. split; [exact H |].
  exact (proj1 (btnTriggerMode_starts_the_same_timer
                  (analyzer_example 2000000 false false) eq_refl H)).
Defined.

Lemma streaming_flag_after_toggle_and_start_witness :
  let la := analyzer_example 1000 false false in
  m_started la = false /\
  digitalStreamingFlag
    (trigger (startStop true (on_btnStreamOneShot_toggled true la)))
  = false.
Proof.
  split; [reflexivity |].
  exact (proj2 (streaming_flag_after_toggle_and_start true
                  (analyzer_example 1000 false false) eq_refl)).
Defined.

Lemma chosen_trigger_index_is_shown_again_witness :
  0 <= 2 < 6 /\
  0 <= 1 < Z.of_nat (length (digitalCondition trigger_example)) /\
  (on_btnChannelSettings_toggled true
     (length (digitalCondition trigger_example)) 1 0
     (triggerComboBox_currentIndexChanged 2 1 trigger_example)).1 = 2.
Proof.
  assert (Hi : 0 <= 2 < 6) by lia.
  assert (Hc : 0 <= 1 < Z.of_nat (length (digitalCondition trigger_example)))
    by (cbn; lia).
  split; [exact Hi |]. split; [exact Hc |].
  exact (proj2 (proj2 (proj2
           (chosen_trigger_index_is_shown_again 2 1 0 trigger_example 0
              Hi Hc)))).
Defined.

Lemma external_condition_box_in_step_witness :
  0 <= 1 /\
  external_consistent triggerMenu_example /\
  digitalExternalCondition
    (menuTrigger
       (externalTriggerSource_currentIndexChanged 1 triggerMenu_example))
  = NO_TRIGGER_DIGITAL.
Proof.
  assert (Hi : 0 <= 1) by lia.
  destruct (external_condition_box_in_step
              (mkTriggerMenu 0 0 false 0 trigger_example) 1 true Hi)
    as (Hsetup & _).
  destruct (external_condition_box_in_step triggerMenu_example 1 true Hi)
    as (_ & _ & Hstep).
  split; [exact Hi |]. split; [exact Hsetup |].
  destruct (Hstep Hsetup) as (_ & _ & Hosc).
  apply Hosc. discriminate.
Defined.

(** In the catalog with two "uart", the second one is added. *)
Lemma added_decoder_is_found_witness :
  0 < 2 /\
  setupDecoders catalog_twice_example !! Z.to_nat 2 = Some "uart"%string /\
  addDecoderComboBox_currentIndexChanged 2 "uart" catalog_twice_example
  = Some (Some (mk_srd_decoder "uart" ["logic"] ["uart_second"]))%string /\
  exists dec,
    addDecoderComboBox_currentIndexChanged 2 "uart" catalog_twice_example
    = Some (Some dec) /\
    id dec = "uart"%string /\
    exists before after,
      catalog_twice_example = before ++ dec :: after /\
      List.Forall (fun d => id d <> "uart"%string) after.
Proof.
  assert (Hi : 0 < 2) by lia.
  assert (Hitem : setupDecoders catalog_twice_example !! Z.to_nat 2
                  = Some "uart"%string) by (vm_compute; reflexivity).
  split; [exact Hi |]. split; [exact Hitem |].
  split; [vm_compute; reflexivity |].
  destruct (added_decoder_is_found catalog_twice_example 2 "uart" Hi Hitem)
    as (_ & dec & Hslot & Hid & _ & Hlast & _).
  exists dec. split; [exact Hslot |]. split; [exact Hid | exact Hlast].
Defined.

(** In the catalog with two "midi", the first one is stacked. *)
Lemma stacked_decoder_is_compatible_witness :
  Z.of_nat 2 <= 2 /\ 0 < 2 /\
  stackDecoderComboBox
    (updateStackDecoderButton catalog_twice_example 2 2 curves_example
       (mkStackDecoderUi [] false)) !! Z.to_nat 2 = Some "midi"%string /\
  stackDecoderComboBox_currentTextChanged "midi" 2 catalog_twice_example 2 2
    curves_example
  = Some (mk_srd_decoder "midi" ["uart"] ["midi"])%string /\
  exists dec,
    stackDecoderComboBox_currentTextChanged "midi" 2 catalog_twice_example
      2 2 curves_example = Some dec /\
    id dec = "midi"%string /\
    exists before after,
      catalog_twice_example = before ++ dec :: after /\
      List.Forall (fun d => id d <> "midi"%string) before.
Proof.
  assert (Hsel : Z.of_nat 2 <= 2) by lia.
  assert (Hi : 0 < 2) by lia.
  assert (Hitem :
    stackDecoderComboBox
      (updateStackDecoderButton catalog_twice_example 2 2 curves_example
         (mkStackDecoderUi [] false)) !! Z.to_nat 2 = Some "midi"%string)
    by (vm_compute; reflexivity).
  split; [exact Hsel |]. split; [exact Hi |]. split; [exact Hitem |].
  split; [vm_compute; reflexivity |].
  destruct (stacked_decoder_is_compatible catalog_twice_example 2 2
              curves_example (mkStackDecoderUi [] false) [uart_example]
              uart_example 2 "midi" Hsel eq_refl eq_refl Hi Hitem)
    as (dec & Hslot & Hid & _ & Hfirst & _).
  exists dec. split; [exact Hslot |]. split; [exact Hid | exact Hfirst].
Defined.

(** "spi" comes before "uart": [sort_pds] is not positive one way and
    positive the other way, and it is not 0. *)
Lemma sort_pds_is_lexicographic_witness :
  c_string (id spi_example) /\ c_string (id uart_example) /\
  String.compare (id spi_example) (id uart_example) = Lt /\
  sort_pds spi_example uart_example <= 0 /\
  ~ sort_pds uart_example spi_example <= 0 /\
  sort_pds spi_example uart_example <> 0.
Proof.
  assert (Hs : c_string (id spi_example))
    by (cbn; repeat split; discriminate).
  assert (Hu : c_string (id uart_example))
    by (cbn; repeat split; discriminate).
  split; [exact Hs |]. split; [exact Hu |]. split; [reflexivity |].
  destruct (sort_pds_is_lexicographic spi_example uart_example Hs Hu)
    as [Hle Heq].
  destruct (sort_pds_is_lexicographic uart_example spi_example Hu Hs)
    as [Hge _].
  split; [apply Hle; discriminate |]. split.
  - intros H. apply Hge in H. apply H. reflexivity.
  - intros H. apply Heq in H. discriminate H.
Defined.


Lemma rightMenuFinished_drains_the_queue_witness :
  List.NoDup (m_menuOrder menu_example) /\
  m_menuButtonActions
    (rightMenuFinished panels_example
       (triggerRightMenuToggle panels_example true btnCursors true
          menu_example)) = [].
Proof.
  assert (Hnd : List.NoDup (m_menuOrder menu_example))
    by (cbn; constructor; [intros [] | constructor]).
  split; [exact Hnd |].
  exact (proj1 (rightMenuFinished_drains_the_queue panels_example
                  (triggerRightMenuToggle panels_example true btnCursors true
                     menu_example) Hnd)).
Defined.

Lemma unchecked_cursors_leave_the_history_witness :
  List.NoDup (m_menuOrder menu_example) /\
  ~ In btnCursors
      (m_menuOrder
         (cursorsBox_toggled panels_example false true false menu_example)).
Proof.
  assert (Hnd : List.NoDup (m_menuOrder menu_example))
    by (cbn; constructor; [intros [] | constructor]).
  split; [exact Hnd |].
  exact (proj1 (unchecked_cursors_leave_the_history panels_example true
                  menu_example Hnd)).
Defined.

Lemma queued_uncheck_brings_cursors_back_witness :
  List.NoDup (m_menuOrder menu_example) /\
  m_menuButtonActions menu_example = [] /\
  gsettings_panel panels_example <> 1 /\
  last (m_menuOrder
          (rightMenuFinished panels_example
             (cursorsBox_toggled panels_example false true true
                menu_example))) = Some btnCursors.
Proof.
  assert (Hnd : List.NoDup (m_menuOrder menu_example))
    by (cbn; constructor; [intros [] | constructor]).
  assert (Hg : gsettings_panel panels_example <> 1) by discriminate.
  split; [exact Hnd |]. split; [reflexivity |]. split; [exact Hg |].
  exact (proj2 (proj2 (queued_uncheck_brings_cursors_back panels_example
                         menu_example Hnd eq_refl Hg))).
Defined.

Lemma bitfield_example_fits : fits_register bitfield_example.
Proof. unfold fits_register. cbn. lia. Qed.

Lemma bitfield_options_example_fits : fits_register bitfield_options_example.
Proof. unfold fits_register. cbn. lia. Qed.

Lemma setValue_stays_in_its_mask_witness :
  fits_register bitfield_example /\
  0 <= 9 <= Bitfield.pow2_minus_1 (Bitfield.width bitfield_example) /\
  (Bitfield.setValue bitfield_example 9).1 = 9 * 2 ^ 8.
Proof.
  assert (Hv : 0 <= 9 <= Bitfield.pow2_minus_1
                             (Bitfield.width bitfield_example))
    by (cbn; lia).
  split; [exact bitfield_example_fits |]. split; [exact Hv |].
  exact (proj1 (setValue_stays_in_its_mask bitfield_example 9
                  bitfield_example_fits Hv)).
Defined.

Lemma masks_of_separate_bitfields_witness :
  Bitfield.regOffset bitfield_example + Bitfield.width bitfield_example
  <= Bitfield.regOffset bitfield_options_example /\
  Z.land (Bitfield.setValue bitfield_example 9).2
         (Bitfield.setValue bitfield_options_example 2).2 = 0.
Proof.
  assert (Hsep : Bitfield.regOffset bitfield_example
                 + Bitfield.width bitfield_example
                 <= Bitfield.regOffset bitfield_options_example)
    by (cbn; lia).
  assert (Hv1 : 0 <= 9 <= Bitfield.pow2_minus_1
                              (Bitfield.width bitfield_example))
    by (cbn; lia).
  assert (Hv2 : 0 <= 2 <= Bitfield.pow2_minus_1
                              (Bitfield.width bitfield_options_example))
    by (cbn; lia).
  split; [exact Hsep |].
  exact (proj1 (masks_of_separate_bitfields bitfield_example
                  bitfield_options_example 9 2 bitfield_example_fits
                  bitfield_options_example_fits Hsep Hv1 Hv2)).
Defined.

Lemma updateValue_splits_the_value_witness :
  0 <= Bitfield.width bitfield_example < 32 /\ 0 <= 0x1234 < 2 ^ 32 /\
  Bitfield.shown_value (Bitfield.updateValue bitfield_example 1 0x1234).1
  = 0x1234 mod 2 ^ 4.
Proof.
  assert (Hw : 0 <= Bitfield.width bitfield_example < 32) by (cbn; lia).
  assert (Hv : 0 <= 0x1234 < 2 ^ 32) by lia.
  split; [exact Hw |]. split; [exact Hv |].
  exact (proj1 (updateValue_splits_the_value bitfield_example 1 0x1234
                  Hw Hv)).
Defined.

Lemma updateValue_reads_what_setValue_wrote_witness :
  Z.land 0xABCD09FF (Bitfield.setValue bitfield_example 9).2
  = (Bitfield.setValue bitfield_example 9).1 /\
  Bitfield.shown_value
    (Bitfield.updateValue bitfield_example 1
       (Z.shiftr 0xABCD09FF (Bitfield.regOffset bitfield_example))).1 = 9.
Proof.
  assert (Hv : 0 <= 9 <= Bitfield.pow2_minus_1
                             (Bitfield.width bitfield_example))
    by (cbn; lia).
  assert (Hreg : Z.land 0xABCD09FF (Bitfield.setValue bitfield_example 9).2
                 = (Bitfield.setValue bitfield_example 9).1)
    by (vm_compute; reflexivity).
  split; [exact Hreg |].
  exact (updateValue_reads_what_setValue_wrote bitfield_example 1 9
           0xABCD09FF bitfield_example_fits Hv Hreg).
Defined.

Lemma updateValues_shows_consecutive_fields_witness :
  Bitfield.updateValues [bitfield_example; bitfield_options_example] 1
    0x1234 !! 1%nat
  = Some (Z.land (Z.shiftr 0x1234 (widths_sum [bitfield_example]))
                 (Z.ones 2)).
Proof.
  assert (Hall : Forall (fun w => 0 <= Bitfield.width w < 32)
                   [bitfield_example; bitfield_options_example])
    by (repeat constructor; cbn; lia).
  exact (updateValues_shows_consecutive_fields
           [bitfield_example; bitfield_options_example] 1 0x1234 1
           bitfield_options_example Hall eq_refl).
Defined.

Lemma createWidget_fills_the_combo_box_witness :
  Bitfield.createWidget 3 bitfield_options_example
  = Some (Bitfield.mkValueWidgets 0 None ["off"; "slow"; "fast"]%string).
Proof.
  exact (createWidget_fills_the_combo_box bitfield_options_example _ 0
           eq_refl eq_refl).
Defined.

Lemma createWidget_without_Option_witness :
  Bitfield.createWidget 1000 bitfield_no_option_example = None.
Proof.
  exact (createWidget_without_Option bitfield_no_option_example _
           eq_refl eq_refl 1000%nat).
Defined.
